(** * Byteplug toolkit: schema validator, document converter and builder

    A shallow embedding of

    - [byteplug/validator/specs.py]     (the schema validator),
    - [byteplug/validator/document.py]  (the document validator/converter),
    - [byteplug/document/types.py]      (the builder classes),

    followed by the properties of the specification that were checked
    against them.

    Conventions of the embedding.

    - A Python value is a term of [PyVal].  Only the values that a YAML or
      JSON decoder produces are needed, plus tuples (the converter builds
      them).  Dictionaries are association lists in insertion order, with
      string keys; a well-formed dictionary has no duplicated key.
    - A finite [float] is represented by the rational it denotes; the
      infinities and NaN, which the decoders give for [Infinity], [NaN] and
      for a literal such as [1e400], are values of their own.  The identity
      of objects is not modelled.  A [str] is a [string] in which every
      [ascii] stands for one character.
    - A function that appends to [errors] and [warnings] and may raise is a
      computation of type [Py A]: it takes the two lists and returns an
      outcome (a value or the exception raised) with the two lists as they
      are afterwards.
    - The interpreter's recursion limit is not modelled: recursion is as deep
      as the value walked. *)

From Stdlib Require Import ZArith QArith List String Ascii Bool Lia Arith.
From Stdlib Require Import DecimalString Qround.
Import ListNotations.
Local Open Scope string_scope.
Local Open Scope Z_scope.

(** ** Python values *)

#[local] Set Warnings "-register-all".

(** A [float]: finite, or one of [inf], [-inf] and [nan]. *)
Inductive Float : Type :=
| Finite (q : Q)
| Infinity (negative : bool)
| NaN.

Coercion Finite : Q >-> Float.

Inductive PyVal : Type :=
| PNone
| PBool (b : bool)
| PInt (z : Z)
| PFloat (f : Float)
| PStr (s : string)
| PList (l : list PyVal)
| PTuple (l : list PyVal)
| PDict (d : list (string * PyVal)).

Definition dict : Type := list (string * PyVal).

(** [type(v)] *)
Inductive PyType : Type :=
| TNoneType | Tbool | Tint | Tfloat | Tstr | Tlist | Ttuple | Tdict.

Definition type (v : PyVal) : PyType :=
  match v with
  | PNone => TNoneType
  | PBool _ => Tbool
  | PInt _ => Tint
  | PFloat _ => Tfloat
  | PStr _ => Tstr
  | PList _ => Tlist
  | PTuple _ => Ttuple
  | PDict _ => Tdict
  end.

Definition PyType_eqb (a b : PyType) : bool :=
  match a, b with
  | TNoneType, TNoneType | Tbool, Tbool | Tint, Tint | Tfloat, Tfloat
  | Tstr, Tstr | Tlist, Tlist | Ttuple, Ttuple | Tdict, Tdict => true
  | _, _ => false
  end.

(** [type(v) in (int, float)]: a [bool] is not a number here. *)
Definition is_number (v : PyVal) : bool :=
  match v with
  | PInt _ | PFloat _ => true
  | _ => false
  end.

(** Truth value of [v], as tested by [if v:] and [not v]. *)
Definition truthy (v : PyVal) : bool :=
  match v with
  | PNone => false
  | PBool b => b
  | PInt z => negb (z =? 0)
  | PFloat (Finite q) => negb (Qeq_bool q 0)
  | PFloat _ => true
  | PStr s => negb (String.eqb s "")
  | PList l | PTuple l => match l with [] => false | _ => true end
  | PDict d => match d with [] => false | _ => true end
  end.

(** *** Dictionaries *)

Fixpoint dict_get (d : dict) (k : string) : option PyVal :=
  match d with
  | [] => None
  | (k', v) :: d' => if String.eqb k k' then Some v else dict_get d' k
  end.

(** [k in d] *)
Definition dict_mem (k : string) (d : dict) : bool :=
  match dict_get d k with Some _ => true | None => false end.

(** [d.get(k)] *)
Definition get (d : dict) (k : string) : PyVal :=
  match dict_get d k with Some v => v | None => PNone end.

(** [d.get(k, default)] *)
Definition get_default (d : dict) (k : string) (default : PyVal) : PyVal :=
  match dict_get d k with Some v => v | None => default end.

(** [d.keys()] *)
Definition keys (d : dict) : list string := map fst d.

(** [d[k] = v]: the value is replaced in place when the key is there, and the
    entry is added at the end when it is not. *)
Fixpoint dict_set (d : dict) (k : string) (v : PyVal) : dict :=
  match d with
  | [] => [(k, v)]
  | (k', v') :: d' =>
      if String.eqb k k' then (k', v) :: d' else (k', v') :: dict_set d' k v
  end.

Definition mem_string (s : string) (l : list string) : bool :=
  existsb (String.eqb s) l.

(** [set(l) - set(m)], in the order of [l]. *)
Definition set_minus (l m : list string) : list string :=
  filter (fun k => negb (mem_string k m)) l.

(** *** Numbers and comparisons *)

Inductive Num : Type := NInt (z : Z) | NFloat (f : Float).

(** The number a value stands for in an arithmetic comparison: [True] is 1
    and [False] is 0. *)
Definition num_of (v : PyVal) : option Num :=
  match v with
  | PBool b => Some (NInt (if b then 1 else 0))
  | PInt z => Some (NInt z)
  | PFloat f => Some (NFloat f)
  | _ => None
  end.

Definition Num_value (n : Num) : Float :=
  match n with NInt z => Finite (inject_Z z) | NFloat f => f end.

(** How two values are ordered; [nan] is not ordered with anything. *)
Inductive Ordering : Type := Less | Equal | Greater | Unordered.

Definition Ordering_of (c : comparison) : Ordering :=
  match c with Lt => Less | Eq => Equal | Gt => Greater end.

Definition Float_compare (a b : Float) : Ordering :=
  match a, b with
  | NaN, _ | _, NaN => Unordered
  | Finite p, Finite q => Ordering_of (Qcompare p q)
  | Finite _, Infinity negative => if negative then Greater else Less
  | Infinity negative, Finite _ => if negative then Less else Greater
  | Infinity n, Infinity m =>
      if Bool.eqb n m then Equal else if n then Less else Greater
  end.

(** Numbers are compared by value, an [int] with a [float] too. *)
Definition num_compare (a b : Num) : Ordering :=
  match a, b with
  | NInt x, NInt y => Ordering_of (Z.compare x y)
  | _, _ => Float_compare (Num_value a) (Num_value b)
  end.

Definition Ordering_eqb (o : Ordering) : bool :=
  match o with Equal => true | _ => false end.

(** [a == b] *)
Fixpoint py_eq (a b : PyVal) {struct a} : bool :=
  match a with
  | PNone => match b with PNone => true | _ => false end
  | PBool x =>
      match num_of b with
      | Some n => Ordering_eqb (num_compare (NInt (if x then 1 else 0)) n)
      | None => false
      end
  | PInt x =>
      match num_of b with
      | Some n => Ordering_eqb (num_compare (NInt x) n)
      | None => false
      end
  | PFloat x =>
      match num_of b with
      | Some n => Ordering_eqb (num_compare (NFloat x) n)
      | None => false
      end
  | PStr s => match b with PStr t => String.eqb s t | _ => false end
  | PList l =>
      match b with
      | PList m =>
          (fix all2 (l m : list PyVal) {struct l} : bool :=
             match l, m with
             | [], [] => true
             | x :: l', y :: m' => py_eq x y && all2 l' m'
             | _, _ => false
             end) l m
      | _ => false
      end
  | PTuple l =>
      match b with
      | PTuple m =>
          (fix all2 (l m : list PyVal) {struct l} : bool :=
             match l, m with
             | [], [] => true
             | x :: l', y :: m' => py_eq x y && all2 l' m'
             | _, _ => false
             end) l m
      | _ => false
      end
  | PDict d =>
      match b with
      | PDict e =>
          Nat.eqb (List.length d) (List.length e)
          && (fix all (d : list (string * PyVal)) : bool :=
                match d with
                | [] => true
                | (k, v) :: d' =>
                    match dict_get e k with
                    | Some w => py_eq v w
                    | None => false
                    end && all d'
                end) d
      | _ => false
      end
  end.

(** How [a] and [b] are ordered, for [<], [>], [<=] and [>=]; [None] when
    they cannot be compared (a [TypeError]).  Numbers are ordered by value,
    strings character by character; for two sequences the first pair of
    elements that are not equal decides, and the lengths decide when there is
    none. *)
Fixpoint py_compare (a b : PyVal) {struct a} : option Ordering :=
  match a with
  | PBool x =>
      option_map (num_compare (NInt (if x then 1 else 0))) (num_of b)
  | PInt x => option_map (num_compare (NInt x)) (num_of b)
  | PFloat x => option_map (num_compare (NFloat x)) (num_of b)
  | PStr s =>
      match b with
      | PStr t => Some (Ordering_of (String.compare s t))
      | _ => None
      end
  | PList l =>
      match b with
      | PList m =>
          (fix lex (l m : list PyVal) {struct l} : option Ordering :=
             match l, m with
             | [], [] => Some Equal
             | [], _ :: _ => Some Less
             | _ :: _, [] => Some Greater
             | x :: l', y :: m' =>
                 if py_eq x y then lex l' m' else py_compare x y
             end) l m
      | _ => None
      end
  | PTuple l =>
      match b with
      | PTuple m =>
          (fix lex (l m : list PyVal) {struct l} : option Ordering :=
             match l, m with
             | [], [] => Some Equal
             | [], _ :: _ => Some Less
             | _ :: _, [] => Some Greater
             | x :: l', y :: m' =>
                 if py_eq x y then lex l' m' else py_compare x y
             end) l m
      | _ => None
      end
  | PNone | PDict _ => None
  end.

(** *** Strings *)

(** [str(n)] for a natural number. *)
Definition str_of_nat (n : nat) : string :=
  NilEmpty.string_of_uint (Nat.to_uint n).

Definition is_lower (c : ascii) : bool :=
  let n := nat_of_ascii c in (97 <=? n)%nat && (n <=? 122)%nat.

(** [re.match(r"^[a-z]+(-[a-z]+)*$", s)] on a string: [in_word] tells
    whether the previous character was a letter.  [$] also matches before a
    newline that ends the string. *)
Fixpoint match_identifier (in_word : bool) (s : string) : bool :=
  match s with
  | EmptyString => in_word
  | String c rest =>
      if is_lower c then match_identifier true rest
      else if in_word then
        if Ascii.eqb c "-" then match_identifier false rest
        else if Ascii.eqb c "010" then
          match rest with EmptyString => true | _ => false end
        else false
      else false
  end.

Definition is_identifier (s : string) : bool := match_identifier false s.

(** The grammar of the specification: [^[a-z]+(-[a-z]+)*$] read as the whole
    string being letters in groups separated by single dashes. *)
Fixpoint spec_identifier_from (in_word : bool) (s : string) : bool :=
  match s with
  | EmptyString => in_word
  | String c rest =>
      if is_lower c then spec_identifier_from true rest
      else in_word && Ascii.eqb c "-" && spec_identifier_from false rest
  end.

Definition spec_identifier (s : string) : bool := spec_identifier_from false s.

(** The grammar of the specification for the [values] of an enum: "a
    non-empty ordered sequence of distinct identifier strings". *)
Fixpoint distinct_strings (l : list string) : bool :=
  match l with
  | [] => true
  | s :: l' => negb (existsb (String.eqb s) l') && distinct_strings l'
  end.

Fixpoint strings_of (l : list PyVal) : option (list string) :=
  match l with
  | [] => Some []
  | PStr s :: l' => option_map (cons s) (strings_of l')
  | _ :: _ => None
  end.

Definition spec_enum_values (values : PyVal) : bool :=
  match values with
  | PList (v :: l) =>
      match strings_of (v :: l) with
      | Some names => forallb spec_identifier names && distinct_strings names
      | None => false
      end
  | _ => false
  end.

(** ** Exceptions, diagnostics and computations *)

(** The exception objects of the program.  [ValidationError] and
    [ValidationWarning] are the classes of [byteplug.validator.exception];
    the others are Python's own ([ReError] is [re.error], [NaNValueError] is
    the [ValueError] that [int] raises on [nan]). *)
Inductive PyExn : Type :=
| ValidationError (path message : string)
| ValidationWarning (path message : string)
| ValueError (path message : string)
| TypeError
| AttributeError
| KeyError
| IndexError
| AssertionError
| RecursionError
| ReError
| JSONDecodeError
| OverflowError
| NaNValueError.

(** The two lists every function of the validators receives. *)
Record Collector : Type := mkCollector {
  errors : list PyExn;
  warnings : list PyExn
}.

Definition no_diagnostics : Collector := mkCollector [] [].

Inductive Outcome (A : Type) : Type :=
| Return (a : A)
| Raise (e : PyExn).
Arguments Return {A} a.
Arguments Raise {A} e.

Definition Py (A : Type) : Type := Collector -> Outcome A * Collector.

Definition ret {A} (a : A) : Py A := fun c => (Return a, c).

Definition raise {A} (e : PyExn) : Py A := fun c => (Raise e, c).

Definition bind {A B} (m : Py A) (f : A -> Py B) : Py B :=
  fun c =>
    match m c with
    | (Return a, c') => f a c'
    | (Raise e, c') => (Raise e, c')
    end.

(** [errors.append(e)] and [warnings.append(w)] *)
Definition errors_append (e : PyExn) : Py unit :=
  fun c => (Return tt, mkCollector (errors c ++ [e]) (warnings c)).

Definition warnings_append (w : PyExn) : Py unit :=
  fun c => (Return tt, mkCollector (errors c) (warnings c ++ [w])).

Declare Scope py_scope.
Delimit Scope py_scope with py.
Notation "x <- m ;; k" := (bind m (fun x => k))
  (at level 61, m at next level, right associativity) : py_scope.
Notation "m ;; k" := (bind m (fun _ => k))
  (at level 61, right associativity) : py_scope.
Local Open Scope py_scope.

(** [if b: m] with no [else]. *)
Definition when (b : bool) (m : Py unit) : Py unit :=
  if b then m else ret tt.

(** [for (index, x) in enumerate(l): body], counting from [index]. *)
Fixpoint for_enumerate {A} (index : nat) (l : list A)
    (body : nat -> A -> Py unit) : Py unit :=
  match l with
  | [] => ret tt
  | x :: l' => body index x ;; for_enumerate (S index) l' body
  end.

(** [for x in l: body] *)
Definition for_each {A} (l : list A) (body : A -> Py unit) : Py unit :=
  for_enumerate 0 l (fun _ => body).

(** A loop that updates a local variable: [body] returns its new value. *)
Fixpoint for_accumulate {A V} (l : list A) (s : V)
    (body : V -> A -> Py V) : Py V :=
  match l with
  | [] => ret s
  | x :: l' => s' <- body s x ;; for_accumulate l' s' body
  end.

(** [a < b], [a > b], [a <= b], [a >= b]: a [TypeError] when the two values
    are not ordered. *)
Definition py_test (test : Ordering -> bool) (a b : PyVal) : Py bool :=
  match py_compare a b with
  | Some o => ret (test o)
  | None => raise TypeError
  end.

Definition py_lt : PyVal -> PyVal -> Py bool :=
  py_test (fun o => match o with Less => true | _ => false end).
Definition py_gt : PyVal -> PyVal -> Py bool :=
  py_test (fun o => match o with Greater => true | _ => false end).
Definition py_le : PyVal -> PyVal -> Py bool :=
  py_test (fun o => match o with Less | Equal => true | _ => false end).
Definition py_ge : PyVal -> PyVal -> Py bool :=
  py_test (fun o => match o with Greater | Equal => true | _ => false end).

(** [len(v)] and [v[index]] for a natural number [index]. *)
Definition py_len (v : PyVal) : Py nat :=
  match v with
  | PStr s => ret (String.length s)
  | PList l | PTuple l => ret (List.length l)
  | PDict d => ret (List.length d)
  | _ => raise TypeError
  end.

Definition py_index (v : PyVal) (index : nat) : Py PyVal :=
  match v with
  | PList l | PTuple l =>
      match nth_error l index with
      | Some x => ret x
      | None => raise IndexError
      end
  | PStr s =>
      match String.get index s with
      | Some c => ret (PStr (String c EmptyString))
      | None => raise IndexError
      end
  | PDict _ => raise KeyError
  | _ => raise TypeError
  end.

(** Whether [hash(v)] is defined, as a lookup in a dictionary needs. *)
Fixpoint hashable (v : PyVal) : bool :=
  match v with
  | PList _ | PDict _ => false
  | PTuple l => forallb hashable l
  | _ => true
  end.


(** ** The schema validator ([byteplug/validator/specs.py]) *)

Section Specs.

(** [extra_properties.pop()]: which element a non-empty set gives is not
    specified by the language, so it is left open. *)
Variable set_pop : list string -> string.

Definition validate_minimum_or_maximum_property (name path : string)
    (value : PyVal) : Py (option (PyVal * PyVal)) :=
  if is_number value then
    ret (Some (PBool false, value))
  else
    match value with
    | PDict value =>
        let extra_properties := set_minus (keys value) ["exclusive"; "value"] in
        match extra_properties with
        | _ :: _ =>
            errors_append (ValidationError (path ++ "." ++ name)
              ("'" ++ set_pop extra_properties ++ "' property is unexpected")) ;;
            ret None
        | [] =>
            let exclusive := get value "exclusive" in
            exclusive <-
              (if truthy exclusive && negb (PyType_eqb (type exclusive) Tbool)
               then
                 errors_append (ValidationError
                   (path ++ "." ++ name ++ ".exclusive") "value must be a bool") ;;
                 ret exclusive
               else ret (PBool false)) ;;
            let value_ := get value "value" in
            (if py_eq value_ PNone then
               errors_append (ValidationError (path ++ "." ++ name)
                 "'value' property is missing")
             else if negb (is_number value_) then
               errors_append (ValidationError
                 (path ++ "." ++ name ++ ".value") "value must be a number")
             else ret tt) ;;
            ret (Some (exclusive, value_))
        end
    | _ =>
        errors_append (ValidationError (path ++ "." ++ name)
          "value must be either a number or a dict") ;;
        ret None
    end.

(** The checks on [minimum] and on [maximum] inside a [length] object. *)
Definition validate_length_bound (path name : string) (bound : PyVal)
    : Py unit :=
  when (truthy bound)
    (when (negb (is_number bound))
       (errors_append (ValidationError (path ++ "." ++ name)
          "value must be a number")) ;;
     when (PyType_eqb (type bound) Tfloat)
       (warnings_append (ValidationWarning path
          "should be an integer (got float)")) ;;
     negative <- py_lt bound (PInt 0) ;;
     when negative
       (errors_append (ValidationError (path ++ "." ++ name)
          "must be greater or equal to zero"))).

Definition validate_length_property (path : string) (value : PyVal)
    : Py unit :=
  let path := path ++ ".length" in
  if is_number value then
    negative <- py_lt value (PInt 0) ;;
    when negative
      (errors_append (ValidationError path "must be greater or equal to zero")) ;;
    when (PyType_eqb (type value) Tfloat)
      (warnings_append (ValidationWarning path
         "should be an integer (got float)"))
  else
    match value with
    | PDict value =>
        let extra_properties := set_minus (keys value) ["minimum"; "maximum"] in
        match extra_properties with
        | _ :: _ =>
            errors_append (ValidationError path
              ("'" ++ set_pop extra_properties ++ "' property is unexpected"))
        | [] =>
            let minimum := get value "minimum" in
            validate_length_bound path "minimum" minimum ;;
            let maximum := get value "maximum" in
            validate_length_bound path "maximum" maximum ;;
            when (negb (py_eq minimum PNone) && negb (py_eq maximum PNone))
              (above <- py_gt minimum maximum ;;
               when above
                 (errors_append (ValidationError path
                    "minimum must be lower than maximum")))
        end
    | _ =>
        errors_append (ValidationError path
          "value must be either a number or a dict")
    end.

Definition validate_flag_type (path : string) (block : dict) : Py unit :=
  ret tt.

(** The last statement of [validate_integer_type] and of
    [validate_decimal_type]. *)
Definition validate_minimum_maximum_order (path : string)
    (minimum maximum : option (PyVal * PyVal)) : Py unit :=
  match minimum, maximum with
  | Some minimum, Some maximum =>
      below <- py_lt (snd maximum) (snd minimum) ;;
      when below
        (errors_append (ValidationError path
           "minimum must be lower than maximum"))
  | _, _ => ret tt
  end.

(** [if name in block: ... validate_minimum_or_maximum_property(...)], with
    the warning of [validate_integer_type] when [warn] is set. *)
Definition validate_bound (warn : bool) (name path : string) (block : dict)
    : Py (option (PyVal * PyVal)) :=
  match dict_get block name with
  | Some value =>
      bound <- validate_minimum_or_maximum_property name path value ;;
      when (warn && match bound with
                    | Some b => PyType_eqb (type (snd b)) Tfloat
                    | None => false
                    end)
        (warnings_append (ValidationWarning (path ++ "." ++ name)
           "should be an integer (got float)")) ;;
      ret bound
  | None => ret None
  end.

Definition validate_integer_type (path : string) (block : dict) : Py unit :=
  minimum <- validate_bound true "minimum" path block ;;
  maximum <- validate_bound true "maximum" path block ;;
  validate_minimum_maximum_order path minimum maximum.

Definition validate_decimal_type (path : string) (block : dict) : Py unit :=
  minimum <- validate_bound false "minimum" path block ;;
  maximum <- validate_bound false "maximum" path block ;;
  validate_minimum_maximum_order path minimum maximum.

Definition validate_string_type (path : string) (block : dict) : Py unit :=
  match dict_get block "length" with
  | Some length => validate_length_property path length
  | None => ret tt
  end ;;
  let pattern := get block "pattern" in
  when (negb (py_eq pattern PNone))
    (when (negb (PyType_eqb (type pattern) Tstr))
       (errors_append (ValidationError (path ++ ".pattern")
          "value must be a string"))).

(** [re.match(r"^[a-z]+(-[a-z]+)*$", value)]: a [TypeError] when [value] is
    not a string. *)
Definition re_match_identifier (value : PyVal) : Py (bool * string) :=
  match value with
  | PStr s => ret (is_identifier s, s)
  | _ => raise TypeError
  end.

Definition validate_enum_type (path : string) (block : dict) : Py unit :=
  let values := get block "values" in
  match values with
  | PNone =>
      errors_append (ValidationError path "'values' property is missing")
  | PList [] =>
      errors_append (ValidationError (path ++ ".values")
        "must contain at least one value")
  | PList values =>
      (* Check for duplicates and check for validity of their value. *)
      _ <- for_accumulate values ([] : list string)
        (fun processed_values value =>
           m <- re_match_identifier value ;;
           let (matched, value) := m in
           if negb matched then
             errors_append (ValidationError (path ++ ".values")
               ("'" ++ value ++ "' is an incorrect value")) ;;
             ret processed_values
           else if mem_string value processed_values then
             errors_append (ValidationError (path ++ ".values")
               ("'" ++ value ++ "' value is duplicated")) ;;
             ret processed_values
           else ret (processed_values ++ [value])%list) ;;
      ret tt
  | _ =>
      errors_append (ValidationError (path ++ ".values") "value must be a list")
  end.

Section Block.

(** The function the three container kinds call on their children. *)
Variable validate_block : string -> PyVal -> Py unit.

Definition validate_list_type (path : string) (block : dict) : Py unit :=
  let value := get block "value" in
  if negb (truthy value) then
    errors_append (ValidationError path "'value' property is missing")
  else
    validate_block (path ++ ".[]") value ;;
    match dict_get block "length" with
    | Some length => validate_length_property path length
    | None => ret tt
    end.

Definition validate_tuple_type (path : string) (block : dict) : Py unit :=
  let values := get block "values" in
  if py_eq values PNone then
    errors_append (ValidationError path "'values' property is missing")
  else
    match values with
    | PList [] =>
        errors_append (ValidationError (path ++ ".values")
          "must contain at least one value")
    | PList values =>
        for_enumerate 0 values (fun index value =>
          validate_block (path ++ ".(" ++ str_of_nat index ++ ")") value)
    | _ =>
        errors_append (ValidationError (path ++ ".values")
          "value must be a list")
    end.

Definition validate_map_type (path : string) (block : dict) : Py unit :=
  let fields := get block "fields" in
  if py_eq fields PNone then
    errors_append (ValidationError path "'fields' property is missing")
  else
    match fields with
    | PDict [] =>
        errors_append (ValidationError (path ++ ".fields")
          "must contain at least one field")
    | PDict fields =>
        for_each fields (fun '(key, value) =>
          if negb (is_identifier key) then
            errors_append (ValidationError (path ++ ".fields")
              ("'" ++ key ++ "' is an incorrect key name"))
          else validate_block (path ++ "." ++ key) value)
    | _ =>
        errors_append (ValidationError (path ++ ".fields")
          "value must be a dict")
    end.

(** The table [validators]: the checker of a kind and the properties the
    kind accepts. *)
Definition validators (type_ : string)
    : option ((string -> dict -> Py unit) * list string) :=
  if String.eqb type_ "flag" then Some (validate_flag_type, [])
  else if String.eqb type_ "integer" then
    Some (validate_integer_type, ["minimum"; "maximum"])
  else if String.eqb type_ "decimal" then
    Some (validate_decimal_type, ["minimum"; "maximum"])
  else if String.eqb type_ "string" then
    Some (validate_string_type, ["length"; "pattern"])
  else if String.eqb type_ "enum" then Some (validate_enum_type, ["values"])
  else if String.eqb type_ "list" then
    Some (validate_list_type, ["value"; "length"])
  else if String.eqb type_ "tuple" then Some (validate_tuple_type, ["values"])
  else if String.eqb type_ "map" then Some (validate_map_type, ["fields"])
  else None.

(** [validators.get(type_)] for any value: looking an unhashable value up
    is a [TypeError], and only a string can be a key of the table. *)
Definition validators_lookup (type_ : PyVal)
    : Py (option ((string -> dict -> Py unit) * list string)) :=
  if negb (hashable type_) then raise TypeError
  else match type_ with
       | PStr type_ => ret (validators type_)
       | _ => ret None
       end.

(** The statements of [validate_block] after the kind is known. *)
Definition validate_known_block (path : string) (block : dict)
    (validator : (string -> dict -> Py unit) * list string) : Py unit :=
  let extra_properties :=
    set_minus (set_minus (keys block) (snd validator)) ["type"; "option"] in
  when (match extra_properties with [] => false | _ => true end)
    (errors_append (ValidationError path
       ("'" ++ set_pop extra_properties ++ "' property is unexpected"))) ;;
  fst validator path block ;;
  when (match dict_get block "option" with
        | Some option => negb (PyType_eqb (type option) Tbool)
        | None => false
        end)
    (errors_append (ValidationError (path ++ ".option")
       "value must be a bool")).

(** The body of [validate_block]. *)
Definition validate_block_body (path : string) (block : PyVal) : Py unit :=
  match block with
  | PDict block =>
      let type_ := get block "type" in
      if negb (truthy type_) then
        errors_append (ValidationError path "'type' property is missing")
      else
        validator <- validators_lookup type_ ;;
        match validator with
        | None =>
            errors_append (ValidationError path
              "value of 'type' is incorrect")
        | Some validator => validate_known_block path block validator
        end
  | _ => errors_append (ValidationError path "value must be a dict")
  end.

End Block.

(** Nesting depth of a value, which bounds the depth of the recursion. *)
Fixpoint depth (v : PyVal) : nat :=
  match v with
  | PList l | PTuple l => S (list_max (map depth l))
  | PDict d => S (list_max (map (fun kv => depth (snd kv)) d))
  | _ => O
  end.

(** [validate_block] calls itself through the table of validators; [fuel]
    bounds the number of nested calls. *)
Fixpoint validate_block_fuel (fuel : nat) (path : string) (block : PyVal)
    : Py unit :=
  match fuel with
  | O => raise RecursionError
  | S fuel => validate_block_body (validate_block_fuel fuel) path block
  end.

Definition validate_block (path : string) (block : PyVal) : Py unit :=
  validate_block_fuel (S (depth block)) path block.

Definition validate_root_block (block : PyVal) : Py unit :=
  match block with
  | PDict _ => validate_block "root" block
  | _ =>
      (* Early termination if the root block is not a dict. *)
      errors_append (ValidationError "root" "root value must be a dict")
  end.

(** An optional list argument is [None] (not given) or the caller's list;
    [assert errors is None or errors == []]. *)
Definition none_or_empty (l : option (list PyExn)) : bool :=
  match l with
  | None | Some [] => true
  | Some (_ :: _) => false
  end.

Definition list_argument (l : option (list PyExn)) : list PyExn :=
  match l with Some l => l | None => [] end.

(** The end of both entry points: [raise errors[0]] unless the caller asked
    for lazy validation. *)
Definition raise_first_error {A} (lazy_validation : bool)
    (result : Outcome A * Collector) : Outcome A * Collector :=
  match result with
  | (Return a, c) =>
      match errors c with
      | e :: _ => if negb lazy_validation then (Raise e, c) else (Return a, c)
      | [] => (Return a, c)
      end
  | (Raise e, c) => (Raise e, c)
  end.

(** [validate_specs(specs, errors, warnings)].  The result is the outcome
    of the call and the two lists at the end (the caller's own lists when
    they were given). *)
Definition validate_specs (specs : PyVal)
    (errors warnings : option (list PyExn)) : Outcome unit * Collector :=
  let c := mkCollector (list_argument errors) (list_argument warnings) in
  if negb (none_or_empty errors) then (Raise AssertionError, c)
  else if negb (none_or_empty warnings) then (Raise AssertionError, c)
  else
    (* We detect if users want lazy validation when they pass an empty list
       as the errors parameters. *)
    let lazy_validation :=
      match errors with None => false | Some _ => true end in
    raise_first_error lazy_validation (validate_root_block specs c).

End Specs.


(** ** The document converter ([byteplug/validator/document.py]) *)

(** Modelled from the spec: [read_minimum_value] and [read_maximum_value] of
    [byteplug/validator/utils.py], which [document.py] imports and which is
    not among the sources.  A bound is "either a bare number (inclusive) or a
    pair (exclusive: bool, value: number)", the checks use "the resolved
    exclusivity", and an absent bound gives [None]. *)
Definition read_bound (name : string) (specs : dict) : option (PyVal * PyVal) :=
  match get specs name with
  | PNone => None
  | PDict bound => Some (get_default bound "exclusive" (PBool false), get bound "value")
  | value => Some (PBool false, value)
  end.

Definition read_minimum_value : dict -> option (PyVal * PyVal) :=
  read_bound "minimum".

Definition read_maximum_value : dict -> option (PyVal * PyVal) :=
  read_bound "maximum".

(** [int(node)] for a number: a finite float is truncated towards zero, an
    infinity raises [OverflowError] and [nan] raises [ValueError].  (The
    converter calls [int] on numbers only.) *)
Definition truncate (q : Q) : Z := Z.quot (Qnum q) (Zpos (Qden q)).

Definition py_int (node : PyVal) : Py Z :=
  match node with
  | PInt z => ret z
  | PBool b => ret (if b then 1 else 0)
  | PFloat (Finite q) => ret (truncate q)
  | PFloat (Infinity _) => raise OverflowError
  | PFloat NaN => raise NaNValueError
  | _ => raise TypeError
  end.

(** [x in v] *)
Definition py_in (x v : PyVal) : Py bool :=
  match v with
  | PList l | PTuple l => ret (existsb (py_eq x) l)
  | PDict d =>
      if negb (hashable x) then raise TypeError
      else match x with
           | PStr k => ret (dict_mem k d)
           | _ => ret false
           end
  | PStr s =>
      match x with
      | PStr t => ret (match String.index 0 t s with Some _ => true | None => false end)
      | _ => raise TypeError
      end
  | _ => raise TypeError
  end.

(** [d[k]] *)
Definition subscript (d : dict) (k : string) : Py PyVal :=
  match dict_get d k with
  | Some v => ret v
  | None => raise KeyError
  end.

(** [for (index, x) in enumerate(l): adjusted_node.append(body(index, x))],
    counting from [index]. *)
Fixpoint for_append {A} (index : nat) (l : list A)
    (body : nat -> A -> Py PyVal) : Py (list PyVal) :=
  match l with
  | [] => ret []
  | x :: l' =>
      y <- body index x ;;
      ys <- for_append (S index) l' body ;;
      ret (y :: ys)
  end.

Section Document.

(** [re.match(pattern, node)] tells whether the pattern matches at the
    start of the string; [None] when the pattern does not compile
    ([re.error]). *)
Variable re_match : string -> string -> option bool.

(** [json.loads(document)]; [None] when the text is not JSON. *)
Variable json_loads : string -> option PyVal.

Definition process_flag_node (path : string) (node : PyVal) (specs : dict)
    : Py PyVal :=
  match node with
  | PBool _ => ret node
  | _ =>
      errors_append (ValidationError path "was expecting a JSON boolean") ;;
      ret PNone
  end.

(** One bound of [process_integer_node]: [strict] and [large] are the
    tests made for an exclusive and for an inclusive bound; the result
    tells whether the node passed. *)
Definition check_bound (path : string) (node : PyVal)
    (bound : option (PyVal * PyVal))
    (strict large : PyVal -> PyVal -> Py bool)
    (strict_message large_message : string) : Py bool :=
  match bound with
  | Some (is_exclusive, value) =>
      if truthy is_exclusive then
        ok <- strict node value ;;
        if negb ok then
          errors_append (ValidationError path strict_message) ;; ret false
        else ret true
      else
        ok <- large node value ;;
        if negb ok then
          errors_append (ValidationError path large_message) ;; ret false
        else ret true
  | None => ret true
  end.

Definition process_integer_node (path : string) (node : PyVal) (specs : dict)
    : Py PyVal :=
  (* must be an number, converted to int or float *)
  if negb (is_number node) then
    errors_append (ValidationError path "was expecting a JSON number") ;;
    ret PNone
  else
    let minimum := read_minimum_value specs in
    let maximum := read_maximum_value specs in
    ok <- check_bound path node minimum py_gt py_ge
            "value must be strictly greater than X"
            "value must be equal or greater than X" ;;
    if negb ok then ret PNone
    else
      ok <- check_bound path node maximum py_lt py_le
              "value must be strictly less than X"
              "value must be equal or less than X" ;;
      if negb ok then ret PNone
      else
        (* TODO; warning if losing precision *)
        z <- py_int node ;;
        ret (PInt z).

Definition process_decimal_node (path : string) (node : PyVal) (specs : dict)
    : Py PyVal :=
  ret PNone.

(** The length checks of [process_string_node] and [process_list_node],
    which differ by the word [what] in their messages; the result tells
    whether the node passed. *)
Definition check_length (what path : string) (len : nat) (specs : dict)
    : Py bool :=
  let length := get specs "length" in
  match length with
  | PNone => ret true
  | PInt length =>
      if negb (Z.of_nat len =? length) then
        errors_append (ValidationError path
          ("length of " ++ what ++ " must be equal to X")) ;;
        ret false
      else ret true
  | PDict length =>
      let minimum := get length "minimum" in
      let maximum := get length "maximum" in
      ok <- (if truthy minimum then
               ok <- py_ge (PInt (Z.of_nat len)) minimum ;;
               if negb ok then
                 errors_append (ValidationError path
                   ("length of " ++ what ++ " must be greater or equal to X")) ;;
                 ret false
               else ret true
             else ret true) ;;
      if negb ok then ret false
      else if truthy maximum then
        ok <- py_le (PInt (Z.of_nat len)) maximum ;;
        if negb ok then
          errors_append (ValidationError path
            ("length of " ++ what ++ " must be lower or equal to X")) ;;
          ret false
        else ret true
      else ret true
  | _ => raise AttributeError
  end.

Definition process_string_node (path : string) (node : PyVal) (specs : dict)
    : Py PyVal :=
  match node with
  | PStr s =>
      ok <- check_length "string" path (String.length s) specs ;;
      if negb ok then ret PNone
      else
        let pattern := get specs "pattern" in
        match pattern with
        | PNone => ret node
        | PStr pattern =>
            match re_match pattern s with
            | Some true => ret node
            | Some false => raise (ValidationError path "didnt match pattern")
            | None => raise ReError
            end
        | _ => raise TypeError
        end
  | _ => raise (ValidationError path "was expecting a JSON string")
  end.

Definition process_enum_node (path : string) (node : PyVal) (specs : dict)
    : Py PyVal :=
  match node with
  | PStr _ =>
      values <- subscript specs "values" ;;
      found <- py_in node values ;;
      if negb found then
        errors_append (ValidationError path
          "value was expected to be one of [foo, bar, quz]") ;;
        ret PNone
      else ret node
  | _ =>
      errors_append (ValidationError path "was expecting a JSON string") ;;
      ret PNone
  end.

Section Node.

(** The function the three container kinds call on their children. *)
Variable adjust_node : string -> PyVal -> PyVal -> Py PyVal.

Definition process_list_node (path : string) (node : PyVal) (specs : dict)
    : Py PyVal :=
  value <- subscript specs "value" ;;
  match node with
  | PList node =>
      ok <- check_length "list" path (List.length node) specs ;;
      if negb ok then ret PNone
      else
        (* TODO; Rework this. *)
        adjusted_node <- for_append 0 node (fun index item =>
          adjust_node (path ++ ".[" ++ str_of_nat index ++ "]") item value) ;;
        ret (PList adjusted_node)
  | _ =>
      errors_append (ValidationError path "was expecting a JSON array") ;;
      ret PNone
  end.

Definition process_tuple_node (path : string) (node : PyVal) (specs : dict)
    : Py PyVal :=
  values <- subscript specs "values" ;;
  match node with
  | PList node =>
      len_values <- py_len values ;;
      if negb (Nat.eqb (List.length node) len_values) then
        errors_append (ValidationError path
          "was expecting array of N elements") ;;
        ret PNone
      else
        (* TODO; Rework this. *)
        adjusted_node <- for_append 0 node (fun index item =>
          value <- py_index values index ;;
          adjust_node (path ++ ".(" ++ str_of_nat index ++ ")") item value) ;;
        ret (PTuple adjusted_node)
  | _ =>
      errors_append (ValidationError path "was expecting a JSON array") ;;
      ret PNone
  end.

(** The body of the loop of [process_map_node], for one field of the schema:
    it gives the new [adjusted_node]. *)
Definition process_map_field (path : string) (node : dict)
    (adjusted_node : dict) (field : string * PyVal) : Py dict :=
  let (key, value) := field in
  match dict_get node key with
  | Some item =>
      adjusted <- adjust_node (path ++ "." ++ key) item value ;;
      ret (dict_set adjusted_node key adjusted)
  | None => ret adjusted_node
  end.

Definition process_map_node (path : string) (node : PyVal) (specs : dict)
    : Py PyVal :=
  fields <- subscript specs "fields" ;;
  match node with
  | PDict node =>
      match fields with
      | PDict fields =>
          (* TODO; More things to do here. *)
          adjusted_node <- for_accumulate fields ([] : dict)
                             (process_map_field path node) ;;
          ret (PDict adjusted_node)
      | _ => raise AttributeError
      end
  | _ =>
      errors_append (ValidationError path "was expecting a JSON object") ;;
      ret PNone
  end.

(** The table [adjust_node_map]. *)
Definition adjust_node_map (type_ : string)
    : option (string -> PyVal -> dict -> Py PyVal) :=
  if String.eqb type_ "flag" then Some process_flag_node
  else if String.eqb type_ "integer" then Some process_integer_node
  else if String.eqb type_ "decimal" then Some process_decimal_node
  else if String.eqb type_ "string" then Some process_string_node
  else if String.eqb type_ "enum" then Some process_enum_node
  else if String.eqb type_ "list" then Some process_list_node
  else if String.eqb type_ "tuple" then Some process_tuple_node
  else if String.eqb type_ "map" then Some process_map_node
  else None.

(** [adjust_node_map[specs['type']]] *)
Definition adjust_node_map_lookup (specs : dict)
    : Py (string -> PyVal -> dict -> Py PyVal) :=
  type_ <- subscript specs "type" ;;
  if negb (hashable type_) then raise TypeError
  else match type_ with
       | PStr type_ =>
           match adjust_node_map type_ with
           | Some process => ret process
           | None => raise KeyError
           end
       | _ => raise KeyError
       end.

(** The body of [adjust_node]. *)
Definition adjust_node_body (path : string) (node specs : PyVal)
    : Py PyVal :=
  match specs with
  | PDict specs =>
      let optional := get_default specs "option" (PBool false) in
      let node_is_None := match node with PNone => true | _ => false end in
      if negb (truthy optional) && node_is_None then
        errors_append (ValueError path "value cant be null") ;;
        ret PNone
      else if truthy optional && node_is_None then
        ret PNone
      else
        process <- adjust_node_map_lookup specs ;;
        process path node specs
  | _ => raise AttributeError
  end.

End Node.

(** [adjust_node] calls itself through the table; [fuel] bounds the number
    of nested calls. *)
Fixpoint adjust_node_fuel (fuel : nat) (path : string) (node specs : PyVal)
    : Py PyVal :=
  match fuel with
  | O => raise RecursionError
  | S fuel => adjust_node_body (adjust_node_fuel fuel) path node specs
  end.

Definition adjust_node (path : string) (node specs : PyVal) : Py PyVal :=
  adjust_node_fuel (S (depth node)) path node specs.

(** [document_to_object(document, specs, errors, warnings)].  The result is
    the outcome of the call and the two lists at the end (the caller's own
    lists when they were given). *)
Definition document_to_object (document : string) (specs : PyVal)
    (errors warnings : option (list PyExn)) : Outcome PyVal * Collector :=
  let c := mkCollector (list_argument errors) (list_argument warnings) in
  if negb (none_or_empty errors) then (Raise AssertionError, c)
  else if negb (none_or_empty warnings) then (Raise AssertionError, c)
  else
    (* We detect if users want lazy validation when they pass an empty list
       as the errors parameters. *)
    let lazy_validation :=
      match errors with None => false | Some _ => true end in
    match json_loads document with
    | Some object =>
        raise_first_error lazy_validation (adjust_node "root" object specs c)
    | None => (Raise JSONDecodeError, c)
    end.

End Document.

(** *** The integer kind in the words of the specification

    "Apply minimum/maximum bound checks using the resolved exclusivity
    (strict [>]/[<] vs inclusive [>=]/[<=]); on violation, error naming which
    bound failed and whether strict."  The order is that of the rationals. *)

Definition value_of (v : PyVal) : Float :=
  match num_of v with Some n => Num_value n | None => Finite 0 end.

Definition Qlt_bool (x y : Q) : bool := negb (Qle_bool y x).

(** [a <= b] and [a < b] on floats: [-inf] is below and [inf] above every
    finite number, and nothing is below, above or equal to [nan]. *)
Definition Float_le (a b : Float) : bool :=
  match a, b with
  | NaN, _ | _, NaN => false
  | Finite p, Finite q => Qle_bool p q
  | Infinity negative, Finite _ => negative
  | Finite _, Infinity negative => negb negative
  | Infinity n, Infinity m => n || negb m
  end.

Definition Float_lt (a b : Float) : bool :=
  match a, b with
  | NaN, _ | _, NaN => false
  | Finite p, Finite q => Qlt_bool p q
  | Infinity negative, Finite _ => negative
  | Finite _, Infinity negative => negb negative
  | Infinity n, Infinity m => n && negb m
  end.

Definition spec_minimum_error (node : PyVal) (minimum : option (PyVal * PyVal))
    : option string :=
  match minimum with
  | Some (is_exclusive, value) =>
      if truthy is_exclusive then
        if Float_lt (value_of value) (value_of node) then None
        else Some "value must be strictly greater than X"
      else
        if Float_le (value_of value) (value_of node) then None
        else Some "value must be equal or greater than X"
  | None => None
  end.

Definition spec_maximum_error (node : PyVal) (maximum : option (PyVal * PyVal))
    : option string :=
  match maximum with
  | Some (is_exclusive, value) =>
      if truthy is_exclusive then
        if Float_lt (value_of node) (value_of value) then None
        else Some "value must be strictly less than X"
      else
        if Float_le (value_of node) (value_of value) then None
        else Some "value must be equal or less than X"
  | None => None
  end.

Definition spec_integer_error (node : PyVal)
    (minimum maximum : option (PyVal * PyVal)) : option string :=
  match spec_minimum_error node minimum with
  | Some message => Some message
  | None => spec_maximum_error node maximum
  end.

(** "Adjusted value is the number coerced to integer representation": the
    whole part of the number, which is the floor of a number that is not
    negative and the ceiling of a negative one. *)
Definition spec_whole_part (q : Q) : Z :=
  if Qle_bool 0 q then Qfloor q else Qceiling q.

(** [del d[k]], for the comparison of two schemas. *)
Definition dict_remove (d : dict) (k : string) : dict :=
  filter (fun kv => negb (String.eqb k (fst kv))) d.

(** *** Converting an adjusted value again *)

(** What [json.loads(json.dumps(v))] gives for an adjusted value: a tuple is
    written as an array, which is read as a list. *)
Fixpoint json_form (v : PyVal) : PyVal :=
  match v with
  | PList l | PTuple l => PList (map json_form l)
  | PDict d => PDict (map (fun kv => (fst kv, json_form (snd kv))) d)
  | _ => v
  end.

(** No block of the schema is of the decimal kind. *)
Fixpoint has_no_decimal (v : PyVal) : bool :=
  match v with
  | PList l | PTuple l => forallb has_no_decimal l
  | PDict d =>
      match get d "type" with
      | PStr type_ => negb (String.eqb type_ "decimal")
      | _ => true
      end
      && forallb (fun kv => has_no_decimal (snd kv)) d
  | _ => true
  end.

(** Every float of the document is a whole number, such as [5.0]. *)
Fixpoint whole_numbers (v : PyVal) : bool :=
  match v with
  | PFloat (Finite q) => Qeq_bool (inject_Z (truncate q)) q
  | PList l | PTuple l => forallb whole_numbers l
  | PDict d => forallb (fun kv => whole_numbers (snd kv)) d
  | _ => true
  end.

(** The dictionaries of a value have no key twice, as Python's have. *)
Fixpoint distinct_keys (v : PyVal) : bool :=
  match v with
  | PList l | PTuple l => forallb distinct_keys l
  | PDict d =>
      distinct_strings (keys d)
      && forallb (fun kv => distinct_keys (snd kv)) d
  | _ => true
  end.

(** The collector [c'] is [c] with errors added at the end. *)
Definition extends (c c' : Collector) : Prop :=
  exists added,
    errors c' = (errors c ++ added)%list /\ warnings c' = warnings c.

(** A computation that only appends errors. *)
Definition appends {A} (m : Py A) : Prop :=
  forall c o c', m c = (o, c') -> extends c c'.

(** A computation that does not touch the collector. *)
Definition pure {A} (m : Py A) : Prop := exists o, forall c, m c = (o, c).

(** A check that, whatever the collector, passes, or fails with the error
    [e] appended, or raises. *)
Definition check (m : Py bool) : Prop :=
  (forall c, m c = (Return true, c))
  \/ (exists e, forall c,
        m c = (Return false, mkCollector (errors c ++ [e]) (warnings c)))
  \/ (exists e, forall c, m c = (Raise e, c)).

(** Converting [node] with [adjust] and converting the result again: when
    the first conversion records no error, the second one gives the same
    adjusted value and records none. *)
Definition converts_again (adjust : string -> PyVal -> PyVal -> Py PyVal)
    (node : PyVal) : Prop :=
  forall path specs c A c',
    distinct_keys specs = true ->
    has_no_decimal specs = true ->
    whole_numbers node = true ->
    adjust path node specs c = (Return A, c') ->
    errors c' = errors c ->
    c' = c
    /\ forall c2, adjust path (json_form A) specs c2 = (Return A, c2).

(** *** The map kind in the words of the specification

    "For every field declared in the schema that is present in the document,
    recursively convert it at path [.<fieldName>] and include it in the
    adjusted mapping; fields declared optional and absent are omitted;
    fields present in the document but not declared in the schema are
    silently dropped."  Nothing else is converted and nothing else is
    recorded. *)

(** The declared fields that the document has, in the order of the schema,
    each with its schema and the document's value. *)
Definition declared_and_present (fields node : dict)
    : list (string * PyVal * PyVal) :=
  flat_map (fun field : string * PyVal =>
              match dict_get node (fst field) with
              | Some item => [(fst field, snd field, item)]
              | None => []
              end) fields.

(** Their conversions, one after the other. *)
Fixpoint convert_fields (adjust : string -> PyVal -> PyVal -> Py PyVal)
    (path : string) (present : list (string * PyVal * PyVal)) : Py dict :=
  match present with
  | [] => ret []
  | (key, value, item) :: rest =>
      adjusted <- adjust (path ++ "." ++ key) item value ;;
      others <- convert_fields adjust path rest ;;
      ret ((key, adjusted) :: others)
  end.

(** Two functions that agree on the nodes nested less deeply than [n]. *)
Definition agree_below_node (n : nat)
    (f g : string -> PyVal -> PyVal -> Py PyVal) : Prop :=
  forall path node specs c, (depth node < n)%nat ->
    f path node specs c = g path node specs c.

(** ** The builder ([byteplug/document/types.py]) *)

Module Types.

(** The arguments [min] and [max] of [Integer]: [42] or [(42, True)]. *)
Inductive Bound : Type :=
| BoundValue (value : Z)
| BoundPair (value : Z) (exclusive : bool).

(** The argument [length] of [String] and [List]: [42] or a pair such as
    [(42, None)]. *)
Inductive Length : Type :=
| LengthValue (value : Z)
| LengthPair (minimum maximum : option Z).

(** The classes derived from [Type], with the arguments of their
    constructors ([None] is an argument left out). *)
Inductive Type_ : Type :=
| Flag (option_ : bool)
| Integer (min max : option Bound) (option_ : bool)
| String_ (length : option Length) (pattern : option string) (option_ : bool)
| Enum (values : list string) (option_ : bool)
| List_ (value : Type_) (length : option Length) (option_ : bool)
| Tuple (values : list Type_) (option_ : bool)
| Map (fields : list (string * Type_)) (option_ : bool).

(** [if self.minimum:] and [if self.length:] *)
Definition Bound_truthy (b : Bound) : bool :=
  match b with
  | BoundValue value => negb (value =? 0)
  | BoundPair _ _ => true
  end.

Definition Length_truthy (l : Length) : bool :=
  match l with
  | LengthValue value => negb (value =? 0)
  | LengthPair _ _ => true
  end.

(** What [to_object] stores under ['minimum'] or ['maximum']. *)
Definition Bound_object (b : Bound) : PyVal :=
  match b with
  | BoundValue value => PInt value
  | BoundPair value exclusive =>
      PDict [("exclusive", PBool exclusive); ("value", PInt value)]
  end.

(** What [to_object] stores under ['length']. *)
Definition Length_object (l : Length) : PyVal :=
  match l with
  | LengthValue value => PInt value
  | LengthPair minimum maximum =>
      let length : dict := [] in
      let length :=
        match minimum with
        | Some n => dict_set length "minimum" (PInt n)
        | None => length
        end in
      let length :=
        match maximum with
        | Some n => dict_set length "maximum" (PInt n)
        | None => length
        end in
      PDict length
  end.

(** [if c: object[key] = v], for an argument that may have been left out. *)
Definition set_if {A} (object : dict) (key : string) (a : option A)
    (truthy : A -> bool) (value : A -> PyVal) : dict :=
  match a with
  | Some a => if truthy a then dict_set object key (value a) else object
  | None => object
  end.

(** [Type.update_object(self, object)] *)
Definition update_object (option_ : bool) (object : dict) : dict :=
  if option_ then dict_set object "option" (PBool true) else object.

Definition string_truthy (s : string) : bool := negb (String.eqb s "").

(** [self.to_object()].  The fields of a [Map] are a dictionary, whose keys
    are distinct. *)
Fixpoint to_object (self : Type_) : PyVal :=
  match self with
  | Flag option_ =>
      let object := [("type", PStr "flag")] in
      PDict (update_object option_ object)
  | Integer min max option_ =>
      let object := [("type", PStr "integer")] in
      let object := set_if object "minimum" min Bound_truthy Bound_object in
      let object := set_if object "maximum" max Bound_truthy Bound_object in
      PDict (update_object option_ object)
  | String_ length pattern option_ =>
      let object := [("type", PStr "string")] in
      let object := set_if object "length" length Length_truthy Length_object in
      let object := set_if object "pattern" pattern string_truthy PStr in
      PDict (update_object option_ object)
  | Enum values option_ =>
      let object := [("type", PStr "enum")] in
      let object := dict_set object "values" (PList (map PStr values)) in
      PDict (update_object option_ object)
  | List_ value length option_ =>
      let object := [("type", PStr "list")] in
      let object := dict_set object "value" (to_object value) in
      let object := set_if object "length" length Length_truthy Length_object in
      PDict (update_object option_ object)
  | Tuple values option_ =>
      let object := [("type", PStr "tuple")] in
      let object := dict_set object "values" (PList (map to_object values)) in
      PDict (update_object option_ object)
  | Map fields option_ =>
      let object := [("type", PStr "map")] in
      let object :=
        dict_set object "fields"
          (PDict (map (fun kv => (fst kv, to_object (snd kv))) fields)) in
      PDict (update_object option_ object)
  end.

End Types.

(** ** Instances of the functions left open

    Concrete functions, for running the definitions on examples. *)

(** A [pop] that gives the first key in the order of the dictionary. *)
Definition first_key (l : list string) : string := hd "" l.

(** A matcher for patterns without operators: the pattern is a literal that
    has to start the string. *)
Definition literal_match (pattern s : string) : option bool :=
  Some (String.prefix pattern s).

(** A decoder that knows the four documents [null], [true], [false], [[]]. *)
Definition tiny_json_loads (document : string) : option PyVal :=
  if String.eqb document "null" then Some PNone
  else if String.eqb document "true" then Some (PBool true)
  else if String.eqb document "false" then Some (PBool false)
  else if String.eqb document "[]" then Some (PList [])
  else None.

(** * Properties *)

(** ** Computations *)

Lemma bind_ext {A B} (m m' : Py A) (f f' : A -> Py B) c :
  m c = m' c ->
  (forall a c', f a c' = f' a c') ->
  bind m f c = bind m' f' c.
Proof.
  intros Hm Hf. unfold bind. rewrite Hm.
  destruct (m' c) as [[a|e] c']; [apply Hf | reflexivity].
Qed.


Lemma for_append_ext {A} (l : list A) (f g : nat -> A -> Py PyVal) :
  (forall i x c, In x l -> f i x c = g i x c) ->
  forall i c, for_append i l f c = for_append i l g c.
Proof.
  induction l as [|x l IH]; intros H i c; simpl; [reflexivity|].
  apply bind_ext.
  - apply H. now left.
  - intros y c'. apply bind_ext; [|reflexivity].
    apply IH. intros j z c'' Hz. apply H. now right.
Qed.

Lemma for_accumulate_ext {A V} (l : list A) (f g : V -> A -> Py V) :
  (forall s x c, In x l -> f s x c = g s x c) ->
  forall s c, for_accumulate l s f c = for_accumulate l s g c.
Proof.
  induction l as [|x l IH]; intros H s c; simpl; [reflexivity|].
  apply bind_ext.
  - apply H. now left.
  - intros s' c'. apply IH. intros s'' y c'' Hy. apply H. now right.
Qed.

Lemma for_accumulate_cons {A V} (x : A) (l : list A) (s : V)
    (body : V -> A -> Py V) c :
  for_accumulate (x :: l) s body c
  = match body s x c with
    | (Return s', c') => for_accumulate l s' body c'
    | (Raise e, c') => (Raise e, c')
    end.
Proof. reflexivity. Qed.

(** ** Dictionaries *)

Lemma dict_get_set_same (d : dict) k v : dict_get (dict_set d k v) k = Some v.
Proof.
  induction d as [|[k' v'] d IH]; simpl.
  - now rewrite String.eqb_refl.
  - destruct (String.eqb k k') eqn:E; simpl; rewrite E; [reflexivity|exact IH].
Qed.

Lemma dict_get_set_other (d : dict) k k' v :
  k <> k' -> dict_get (dict_set d k v) k' = dict_get d k'.
Proof.
  intros Hk. induction d as [|[k0 v0] d IH]; simpl.
  - destruct (String.eqb k' k) eqn:E; [|reflexivity].
    apply String.eqb_eq in E. congruence.
  - destruct (String.eqb k k0) eqn:E; simpl.
    + apply String.eqb_eq in E. subst k0.
      destruct (String.eqb k' k) eqn:E'; [|reflexivity].
      apply String.eqb_eq in E'. congruence.
    + now rewrite IH.
Qed.

Lemma dict_get_remove_same (d : dict) k : dict_get (dict_remove d k) k = None.
Proof.
  induction d as [|[k0 v0] d IH]; simpl; [reflexivity|].
  destruct (String.eqb k k0) eqn:E; simpl; [exact IH|]. now rewrite E.
Qed.

Lemma dict_get_remove_other (d : dict) k k' :
  k <> k' -> dict_get (dict_remove d k) k' = dict_get d k'.
Proof.
  intros Hk. induction d as [|[k0 v0] d IH]; simpl; [reflexivity|].
  destruct (String.eqb k k0) eqn:E; simpl.
  - apply String.eqb_eq in E. subst k0.
    destruct (String.eqb k' k) eqn:E'; [|exact IH].
    apply String.eqb_eq in E'. congruence.
  - now rewrite IH.
Qed.

(** ** Comparisons of numbers *)

Lemma num_compare_value (x y : Num) :
  num_compare x y = Float_compare (Num_value x) (Num_value y).
Proof.
  destruct x, y; try reflexivity.
  unfold num_compare, Float_compare, Num_value, Qcompare. simpl.
  now rewrite !Z.mul_1_r.
Qed.

Lemma py_compare_numbers (a b : PyVal) x y :
  num_of a = Some x -> num_of b = Some y ->
  py_compare a b = Some (Float_compare (value_of a) (value_of b)).
Proof.
  intros Ha Hb. unfold value_of. rewrite Ha, Hb, <- num_compare_value.
  destruct a; try discriminate Ha; simpl in Ha; injection Ha as <-;
    simpl; rewrite Hb; reflexivity.
Qed.

Lemma Qcompare_gt (p q : Q) :
  match (p ?= q)%Q with Gt => true | _ => false end = Qlt_bool q p.
Proof.
  unfold Qlt_bool. destruct (Qle_bool p q) eqn:E; simpl.
  - apply Qle_bool_iff, Qle_alt in E.
    destruct (p ?= q)%Q eqn:C; try reflexivity. now elim E.
  - destruct (p ?= q)%Q eqn:C; [| |reflexivity]; exfalso;
      (assert (Qle_bool p q = true) as K;
       [apply Qle_bool_iff, Qle_alt; rewrite C; discriminate | congruence]).
Qed.

Lemma Qcompare_le (p q : Q) :
  match (p ?= q)%Q with Gt => false | _ => true end = Qle_bool p q.
Proof.
  pose proof (Qcompare_gt p q) as H. unfold Qlt_bool in H.
  destruct (p ?= q)%Q, (Qle_bool p q); simpl in H; congruence.
Qed.

Lemma Qcompare_lt (p q : Q) :
  match (p ?= q)%Q with Lt => true | _ => false end = Qlt_bool p q.
Proof.
  rewrite <- Qcompare_gt, <- (Qcompare_antisym p q).
  now destruct (p ?= q)%Q.
Qed.

Lemma Qcompare_ge (p q : Q) :
  match (p ?= q)%Q with Lt => false | _ => true end = Qle_bool q p.
Proof.
  rewrite <- Qcompare_le, <- (Qcompare_antisym p q).
  now destruct (p ?= q)%Q.
Qed.

(** The tests on the ordering of two floats are the order of the
    specification. *)
Lemma Float_compare_gt (a b : Float) :
  match Float_compare a b with Greater => true | _ => false end
  = Float_lt b a.
Proof.
  destruct a as [p|[|]|], b as [q|[|]|]; try reflexivity.
  simpl. rewrite <- Qcompare_gt. now destruct (p ?= q)%Q.
Qed.

Lemma Float_compare_lt (a b : Float) :
  match Float_compare a b with Less => true | _ => false end
  = Float_lt a b.
Proof.
  destruct a as [p|[|]|], b as [q|[|]|]; try reflexivity.
  simpl. rewrite <- Qcompare_lt. now destruct (p ?= q)%Q.
Qed.

Lemma Float_compare_ge (a b : Float) :
  match Float_compare a b with Greater | Equal => true | _ => false end
  = Float_le b a.
Proof.
  destruct a as [p|[|]|], b as [q|[|]|]; try reflexivity.
  simpl. rewrite <- Qcompare_ge. now destruct (p ?= q)%Q.
Qed.

Lemma Float_compare_le (a b : Float) :
  match Float_compare a b with Less | Equal => true | _ => false end
  = Float_le a b.
Proof.
  destruct a as [p|[|]|], b as [q|[|]|]; try reflexivity.
  simpl. rewrite <- Qcompare_le. now destruct (p ?= q)%Q.
Qed.

(** Truncation towards zero is the whole part of the specification. *)
Lemma truncate_whole_part (q : Q) : truncate q = spec_whole_part q.
Proof.
  unfold truncate, spec_whole_part, Qceiling, Qfloor.
  destruct q as [n d]. cbn [Qnum Qden Qopp].
  destruct (Qle_bool 0 (n # d)) eqn:E.
  - apply Qle_bool_iff in E. unfold Qle in E. cbn in E.
    rewrite Z.mul_1_r in E. now apply Z.quot_div_nonneg.
  - assert (n < 0) as Hn.
    { destruct (Z.ltb_spec n 0) as [H|H]; [exact H|].
      assert (Qle_bool 0 (n # d) = true) as K; [|congruence].
      apply Qle_bool_iff. unfold Qle. cbn. now rewrite Z.mul_1_r. }
    rewrite <- (Z.opp_involutive n) at 1.
    rewrite Z.quot_opp_l by discriminate.
    f_equal. apply Z.quot_div_nonneg; lia.
Qed.

(** ** Depth of the children of a value *)

Lemma list_max_In (l : list nat) (n : nat) : In n l -> (n <= list_max l)%nat.
Proof.
  induction l as [|m l IH]; simpl; [easy|].
  intros [->|H]; [lia|]. specialize (IH H). lia.
Qed.

Lemma depth_item (l : list PyVal) (x : PyVal) :
  In x l -> (depth x < depth (PList l))%nat.
Proof.
  intros H. simpl. apply Nat.lt_succ_r, list_max_In, in_map, H.
Qed.

Lemma depth_entry (d : dict) (k : string) (v : PyVal) :
  In (k, v) d -> (depth v < depth (PDict d))%nat.
Proof.
  intros H. simpl. apply Nat.lt_succ_r, list_max_In.
  change (depth v) with ((fun kv : string * PyVal => depth (snd kv)) (k, v)).
  apply in_map, H.
Qed.

Lemma dict_get_In (d : dict) (k : string) (v : PyVal) :
  dict_get d k = Some v -> exists k', In (k', v) d.
Proof.
  induction d as [|[k' v'] d IH]; simpl; [discriminate|].
  destruct (String.eqb k k').
  - intros [= ->]. exists k'. now left.
  - intros H. destruct (IH H) as [k'' Hk]. exists k''. now right.
Qed.

Lemma depth_dict_get (d : dict) (k : string) (v : PyVal) :
  dict_get d k = Some v -> (depth v < depth (PDict d))%nat.
Proof.
  intros H. destruct (dict_get_In _ _ _ H) as [k' Hk].
  eapply depth_entry, Hk.
Qed.


(** ** The recursion of the schema validator *)

Section SpecsRecursion.

Variable set_pop : list string -> string.








(** ** The entry point of the schema validator *)

(** Lazy validation gives the outcome of the walk as it is. *)
Lemma raise_first_error_lazy {A} (result : Outcome A * Collector) :
  raise_first_error true result = result.
Proof.
  destruct result as [[a|e] c]; simpl; [|reflexivity].
  destruct (errors c); reflexivity.
Qed.

(** Without the [errors] argument, [validate_specs] raises the first error of
    the lazy run when that run returns with errors, returns when it returns
    with none, and raises what the walk raises otherwise. *)
Lemma validate_specs_fail_fast_of_lazy specs :
  validate_specs set_pop specs None None
  = raise_first_error false (validate_specs set_pop specs (Some []) None).
Proof.
  unfold validate_specs. simpl. now rewrite raise_first_error_lazy.
Qed.

(** C1 (the code departs from the claim).  On the schema
    [{type: enum, values: [1]}], whose values are not the identifier strings
    the grammar asks for, the lazy call reports no error: the walk is left by
    a [TypeError] with the collector still empty.  The call without [errors]
    raises that [TypeError] too, which is no diagnostic of the validator. *)
Theorem validate_specs_enum_value_not_a_string :
  let specs := PDict [("type", PStr "enum"); ("values", PList [PInt 1])] in
  spec_enum_values (get [("type", PStr "enum"); ("values", PList [PInt 1])] "values")
  = false
  /\ validate_specs set_pop specs (Some []) None = (Raise TypeError, no_diagnostics)
  /\ validate_specs set_pop specs None None = (Raise TypeError, no_diagnostics).
Proof.
  repeat split; reflexivity.
Qed.

(** C2 (the code departs from the claim).  In lazy mode the walk records the
    violation and is then left by a [TypeError]: for a bound object without
    ['value'], for a bound whose value is not a number, for a length bound
    that is not a number; for an enum value that is not a string nothing is
    recorded at all. *)
Theorem validate_specs_lazy_raises_TypeError :
  validate_specs set_pop
    (PDict [("type", PStr "integer"); ("minimum", PDict []); ("maximum", PInt 3)])
    (Some []) None
  = (Raise TypeError,
     mkCollector [ValidationError "root.minimum" "'value' property is missing"] [])
  /\ validate_specs set_pop
       (PDict [("type", PStr "integer");
               ("minimum", PDict [("value", PStr "a")]); ("maximum", PInt 3)])
       (Some []) None
     = (Raise TypeError,
        mkCollector [ValidationError "root.minimum.value" "value must be a number"] [])
  /\ validate_specs set_pop
       (PDict [("type", PStr "string"); ("length", PDict [("minimum", PStr "a")])])
       (Some []) None
     = (Raise TypeError,
        mkCollector [ValidationError "root.length.minimum" "value must be a number"] [])
  /\ validate_specs set_pop
       (PDict [("type", PStr "enum"); ("values", PList [PStr "a"; PInt 1])])
       (Some []) None
     = (Raise TypeError, no_diagnostics).
Proof.
  repeat split; reflexivity.
Qed.


End SpecsRecursion.


(** ** The recursion of the document converter *)

Section DocumentRecursion.

Variable re_match : string -> string -> option bool.

Lemma process_list_node_ext f g path node specs c :
  agree_below_node (depth node) f g ->
  process_list_node f path node specs c = process_list_node g path node specs c.
Proof.
  intros H. unfold process_list_node.
  apply bind_ext; [reflexivity|]. intros value c'.
  destruct node as [| | | | |l| |]; try reflexivity.
  apply bind_ext; [reflexivity|]. intros ok c''.
  destruct (negb ok); [reflexivity|].
  apply bind_ext; [|reflexivity].
  apply for_append_ext. intros i x c3 Hx. apply H, depth_item, Hx.
Qed.

Lemma process_tuple_node_ext f g path node specs c :
  agree_below_node (depth node) f g ->
  process_tuple_node f path node specs c = process_tuple_node g path node specs c.
Proof.
  intros H. unfold process_tuple_node.
  apply bind_ext; [reflexivity|]. intros values c'.
  destruct node as [| | | | |l| |]; try reflexivity.
  apply bind_ext; [reflexivity|]. intros n c''.
  destruct (negb (Nat.eqb (List.length l) n)); [reflexivity|].
  apply bind_ext; [|reflexivity].
  apply for_append_ext. intros i x c3 Hx.
  apply bind_ext; [reflexivity|]. intros value c4. apply H, depth_item, Hx.
Qed.

Lemma process_map_node_ext f g path node specs c :
  agree_below_node (depth node) f g ->
  process_map_node f path node specs c = process_map_node g path node specs c.
Proof.
  intros H. unfold process_map_node.
  apply bind_ext; [reflexivity|]. intros fields c'.
  destruct node as [| | | | | | |d]; try reflexivity.
  destruct fields as [| | | | | | |fields]; try reflexivity.
  apply bind_ext; [|reflexivity].
  apply for_accumulate_ext. intros adjusted [key value] c3 _.
  unfold process_map_field.
  destruct (dict_get d key) as [item|] eqn:E; [|reflexivity].
  apply bind_ext; [|reflexivity]. eapply H, depth_dict_get, E.
Qed.

Lemma adjust_node_map_ext f g path node specs type_ c :
  agree_below_node (depth node) f g ->
  match adjust_node_map re_match f type_, adjust_node_map re_match g type_ with
  | Some pf, Some pg => pf path node specs c = pg path node specs c
  | None, None => True
  | _, _ => False
  end.
Proof.
  intros H. unfold adjust_node_map.
  repeat match goal with
         | |- context [if ?b then _ else _] => destruct b
         end;
    first [ exact I
          | reflexivity
          | now apply process_list_node_ext
          | now apply process_tuple_node_ext
          | now apply process_map_node_ext ].
Qed.

Lemma adjust_node_body_ext f g path node specs c :
  agree_below_node (depth node) f g ->
  adjust_node_body re_match f path node specs c
  = adjust_node_body re_match g path node specs c.
Proof.
  intros H. destruct specs as [| | | | | | |d]; try reflexivity.
  unfold adjust_node_body.
  destruct (negb (truthy (get_default d "option" (PBool false))) && _);
    [reflexivity|].
  destruct (truthy (get_default d "option" (PBool false)) && _);
    [reflexivity|].
  unfold adjust_node_map_lookup, bind, subscript.
  destruct (dict_get d "type") as [type_|]; [|reflexivity].
  unfold ret, raise.
  destruct (negb (hashable type_)); [reflexivity|].
  destruct type_ as [| | | |type_| | |]; try reflexivity.
  pose proof (adjust_node_map_ext f g path node d type_ c H) as K.
  destruct (adjust_node_map re_match f type_),
    (adjust_node_map re_match g type_); try contradiction;
    [exact K | reflexivity].
Qed.

(** Any amount of fuel above the depth of the node gives the same run. *)
Lemma adjust_node_fuel_enough n : forall m path node specs,
  (depth node < n)%nat -> (depth node < m)%nat ->
  forall c, adjust_node_fuel re_match n path node specs c
            = adjust_node_fuel re_match m path node specs c.
Proof.
  induction n as [|n IH]; intros m path node specs Hn Hm c; [lia|].
  destruct m as [|m]; [lia|]. simpl.
  apply adjust_node_body_ext. intros p v sp c' Hv.
  apply IH; lia.
Qed.

(** The equation of [adjust_node]: its body, calling [adjust_node] on the
    children. *)
Lemma adjust_node_equation path node specs c :
  adjust_node re_match path node specs c
  = adjust_node_body re_match (adjust_node re_match) path node specs c.
Proof.
  unfold adjust_node at 1. simpl.
  apply adjust_node_body_ext. intros p v sp c' Hv.
  unfold adjust_node. apply adjust_node_fuel_enough; lia.
Qed.

End DocumentRecursion.

(** ** The kinds without children *)

Section DocumentLeaves.

Variable re_match : string -> string -> option bool.

Lemma py_test_numbers test (a b : PyVal) x y c :
  num_of a = Some x -> num_of b = Some y ->
  py_test test a b c
  = (Return (test (Float_compare (value_of a) (value_of b))), c).
Proof.
  intros Ha Hb. unfold py_test. now rewrite (py_compare_numbers a b x y Ha Hb).
Qed.

Lemma check_bound_minimum path node minimum c :
  is_number node = true ->
  (forall b, minimum = Some b -> num_of (snd b) <> None) ->
  check_bound path node minimum py_gt py_ge
    "value must be strictly greater than X"
    "value must be equal or greater than X" c
  = match spec_minimum_error node minimum with
    | Some message =>
        (Return false,
         mkCollector (errors c ++ [ValidationError path message]) (warnings c))
    | None => (Return true, c)
    end.
Proof.
  intros Hnode Hbound. destruct minimum as [[is_exclusive value]|];
    [|reflexivity].
  destruct (num_of value) as [y|] eqn:Hy;
    [|now elim (Hbound _ eq_refl)].
  assert (exists x, num_of node = Some x) as [x Hx]
    by (destruct node; try discriminate Hnode; eexists; reflexivity).
  unfold check_bound, spec_minimum_error, py_gt, py_ge, bind.
  destruct (truthy is_exclusive);
    rewrite (py_test_numbers _ node value x y c Hx Hy).
  - rewrite Float_compare_gt.
    now destruct (Float_lt (value_of value) (value_of node)).
  - rewrite Float_compare_ge.
    now destruct (Float_le (value_of value) (value_of node)).
Qed.

Lemma check_bound_maximum path node maximum c :
  is_number node = true ->
  (forall b, maximum = Some b -> num_of (snd b) <> None) ->
  check_bound path node maximum py_lt py_le
    "value must be strictly less than X"
    "value must be equal or less than X" c
  = match spec_maximum_error node maximum with
    | Some message =>
        (Return false,
         mkCollector (errors c ++ [ValidationError path message]) (warnings c))
    | None => (Return true, c)
    end.
Proof.
  intros Hnode Hbound. destruct maximum as [[is_exclusive value]|];
    [|reflexivity].
  destruct (num_of value) as [y|] eqn:Hy;
    [|now elim (Hbound _ eq_refl)].
  assert (exists x, num_of node = Some x) as [x Hx]
    by (destruct node; try discriminate Hnode; eexists; reflexivity).
  unfold check_bound, spec_maximum_error, py_lt, py_le, bind.
  destruct (truthy is_exclusive);
    rewrite (py_test_numbers _ node value x y c Hx Hy).
  - rewrite Float_compare_lt.
    now destruct (Float_lt (value_of node) (value_of value)).
  - rewrite Float_compare_le.
    now destruct (Float_le (value_of node) (value_of value)).
Qed.

(** C6.  At an integer node whose bounds are numbers, a number is refused
    with one error exactly when it fails a bound, an exclusive bound being
    tested strictly and an inclusive one not.  A number that passes is
    converted with [int]: an integer is returned as it is and a finite float
    gives its whole part; for an infinity or [nan] that passes the bounds,
    [int] raises and there is no adjusted value.  With
    [minimum: {value: 5, exclusive: true}] the document 5 is refused, 6 is
    accepted and 6.5 gives 6. *)
Theorem process_integer_node_bounds path node specs c :
  is_number node = true ->
  (forall b, read_minimum_value specs = Some b -> num_of (snd b) <> None) ->
  (forall b, read_maximum_value specs = Some b -> num_of (snd b) <> None) ->
  process_integer_node path node specs c
  = match spec_integer_error node (read_minimum_value specs)
            (read_maximum_value specs) with
    | Some message =>
        (Return PNone,
         mkCollector (errors c ++ [ValidationError path message]) (warnings c))
    | None =>
        match node with
        | PFloat (Finite q) => (Return (PInt (spec_whole_part q)), c)
        | PFloat (Infinity _) => (Raise OverflowError, c)
        | PFloat NaN => (Raise NaNValueError, c)
        | _ => (Return node, c)
        end
    end
  /\ (let specs5 := [("type", PStr "integer");
                     ("minimum", PDict [("value", PInt 5);
                                        ("exclusive", PBool true)])] in
      process_integer_node path (PInt 5) specs5 c
      = (Return PNone,
         mkCollector
           (errors c ++ [ValidationError path "value must be strictly greater than X"])
           (warnings c))
      /\ process_integer_node path (PInt 6) specs5 c = (Return (PInt 6), c)
      /\ process_integer_node path (PFloat (13 # 2)) specs5 c
         = (Return (PInt 6), c)
      /\ process_integer_node path (PFloat (-7 # 2))
           [("type", PStr "integer")] c
         = (Return (PInt (-3)), c)
      /\ process_integer_node path (PFloat (Infinity false)) specs5 c
         = (Raise OverflowError, c)).
Proof.
  intros Hnode Hmin Hmax. split; [|repeat split; reflexivity].
  unfold process_integer_node, spec_integer_error. rewrite Hnode.
  cbn [negb]. cbv zeta. unfold bind at 1.
  rewrite (check_bound_minimum path node _ c Hnode Hmin).
  destruct (spec_minimum_error node (read_minimum_value specs));
    [reflexivity|].
  cbn [negb]. unfold bind at 1.
  rewrite (check_bound_maximum path node _ c Hnode Hmax).
  destruct (spec_maximum_error node (read_maximum_value specs));
    [reflexivity|].
  cbn [negb]. destruct node as [| | |[q|negative|]| | | |];
    try discriminate Hnode; try reflexivity.
  unfold bind. cbn [py_int]. unfold ret. now rewrite truncate_whole_part.
Qed.

(** C3 (the code departs from the claim).  The schema
    [{type: map, fields: {a: {type: string}, b: {type: flag}}}] passes the
    schema validator.  With the document [{a: 5, b: 5}] the walk of lazy
    mode does not record the error at [a]: it raises it, the field [b] is not
    looked at, and no adjusted value is returned.  The lazy call of
    [document_to_object] on the document [5] with the schema [{type: string}]
    raises in the same way, and so does a string that does not match its
    pattern. *)
Theorem document_to_object_lazy_raises_at_string_node set_pop :
  let specs :=
    PDict [("type", PStr "map");
           ("fields", PDict [("a", PDict [("type", PStr "string")]);
                             ("b", PDict [("type", PStr "flag")])])] in
  let object := PDict [("a", PInt 5); ("b", PInt 5)] in
  validate_specs set_pop specs (Some []) None = (Return tt, no_diagnostics)
  /\ adjust_node re_match "root" object specs no_diagnostics
     = (Raise (ValidationError "root.a" "was expecting a JSON string"),
        no_diagnostics)
  /\ document_to_object re_match (fun _ => Some (PInt 5)) "5"
       (PDict [("type", PStr "string")]) (Some []) None
     = (Raise (ValidationError "root" "was expecting a JSON string"),
        no_diagnostics)
  /\ adjust_node literal_match "root" (PStr "b")
       (PDict [("type", PStr "string"); ("pattern", PStr "a")]) no_diagnostics
     = (Raise (ValidationError "root" "didnt match pattern"), no_diagnostics).
Proof.
  repeat split; reflexivity.
Qed.

(** C8, as amended.  At a decimal node a document value that is not null is
    converted to [None], whatever it is, and nothing is recorded. *)
Theorem adjust_node_decimal_gives_None path node specs c :
  node <> PNone ->
  dict_get specs "type" = Some (PStr "decimal") ->
  adjust_node re_match path node (PDict specs) c = (Return PNone, c).
Proof.
  intros Hnode Htype. rewrite adjust_node_equation. unfold adjust_node_body.
  assert (match node with PNone => true | _ => false end = false) as ->
    by (destruct node; congruence).
  rewrite !andb_false_r.
  unfold adjust_node_map_lookup, subscript. rewrite Htype. reflexivity.
Qed.

Lemma check_length_zero_bound what path len specs length bound c :
  dict_get specs "length" = Some (PDict length) ->
  bound = "minimum" \/ bound = "maximum" ->
  dict_get length bound = Some (PInt 0) ->
  check_length what path len specs c
  = check_length what path len
      (dict_set specs "length" (PDict (dict_remove length bound))) c.
Proof.
  intros Hlength Hbound Hzero. unfold check_length, get.
  rewrite Hlength, dict_get_set_same.
  destruct Hbound as [-> | ->].
  - rewrite Hzero, dict_get_remove_same.
    rewrite (dict_get_remove_other length "minimum" "maximum") by discriminate.
    reflexivity.
  - rewrite Hzero, dict_get_remove_same.
    rewrite (dict_get_remove_other length "maximum" "minimum") by discriminate.
    unfold bind.
    destruct (dict_get length "minimum") as [minimum|]; [|reflexivity].
    destruct (truthy minimum); [|reflexivity].
    destruct (py_ge (PInt (Z.of_nat len)) minimum c) as [[ok|e] c'];
      [|reflexivity].
    destruct (negb ok); [|reflexivity].
    now destruct (errors_append _ c') as [[[]|e] c''].
Qed.

(** C10.  A [minimum] or [maximum] of 0 inside the [length] of a string or
    list schema is not tested: the conversion is the one of the schema with
    that bound taken out.  A string of any length is accepted by
    [length: {maximum: 0}]. *)
Theorem zero_length_bound_is_ignored adjust path specs length bound c :
  dict_get specs "length" = Some (PDict length) ->
  bound = "minimum" \/ bound = "maximum" ->
  dict_get length bound = Some (PInt 0) ->
  let without := dict_set specs "length" (PDict (dict_remove length bound)) in
  (forall s, process_string_node re_match path (PStr s) specs c
             = process_string_node re_match path (PStr s) without c)
  /\ (forall l, process_list_node adjust path (PList l) specs c
                = process_list_node adjust path (PList l) without c)
  /\ (forall s, process_string_node re_match path (PStr s)
                  [("type", PStr "string");
                   ("length", PDict [("maximum", PInt 0)])] c
                = (Return (PStr s), c)).
Proof.
  intros Hlength Hbound Hzero without. repeat split.
  - intros s. unfold process_string_node. apply bind_ext.
    + now apply check_length_zero_bound.
    + intros ok c'. destruct (negb ok); [reflexivity|].
      unfold without, get.
      now rewrite (dict_get_set_other specs "length" "pattern") by discriminate.
  - intros l. unfold process_list_node, subscript, without.
    rewrite (dict_get_set_other specs "length" "value") by discriminate.
    apply bind_ext; [reflexivity|]. intros value c'.
    apply bind_ext; [|reflexivity].
    now apply check_length_zero_bound.
Qed.

End DocumentLeaves.

(** Witness of C6: the schema of the example and the document 6.5, which
    passes the exclusive minimum 5 and is converted to 6. *)
Lemma process_integer_node_bounds_witness :
  process_integer_node "root" (PFloat (13 # 2))
    [("type", PStr "integer");
     ("minimum", PDict [("value", PInt 5); ("exclusive", PBool true)])]
    no_diagnostics
  = (Return (PInt 6), no_diagnostics).
Proof.
  refine (proj1 (process_integer_node_bounds "root" (PFloat (13 # 2))
    [("type", PStr "integer");
     ("minimum", PDict [("value", PInt 5); ("exclusive", PBool true)])]
    no_diagnostics eq_refl _ _)).
  - intros b [= <-]. discriminate.
  - intros b [=].
Defined.

(** What C8 claims does not hold: the decimal kind does not give the document
    value back. *)
Lemma adjust_node_decimal_is_not_pass_through :
  ~ (forall node, node <> PNone ->
       exists c, adjust_node literal_match "root" node
                   (PDict [("type", PStr "decimal")]) no_diagnostics
                 = (Return node, c)).
Proof.
  intros H. destruct (H (PInt 1)) as [c Hc]; [discriminate|].
  discriminate Hc.
Qed.

(** Witness of C8 as amended. *)
Lemma adjust_node_decimal_gives_None_witness :
  adjust_node literal_match "root" (PInt 1) (PDict [("type", PStr "decimal")])
    no_diagnostics
  = (Return PNone, no_diagnostics).
Proof.
  apply (adjust_node_decimal_gives_None literal_match "root" (PInt 1)
           [("type", PStr "decimal")] no_diagnostics).
  - discriminate.
  - reflexivity.
Defined.

(** Witness of C10: the bound [maximum: 0] next to [minimum: 2], and a string
    of three characters. *)
Lemma zero_length_bound_is_ignored_witness :
  process_string_node literal_match "root" (PStr "abc")
    [("type", PStr "string");
     ("length", PDict [("minimum", PInt 2); ("maximum", PInt 0)])]
    no_diagnostics
  = process_string_node literal_match "root" (PStr "abc")
      [("type", PStr "string"); ("length", PDict [("minimum", PInt 2)])]
      no_diagnostics.
Proof.
  exact (proj1 (zero_length_bound_is_ignored literal_match
    (fun _ _ _ => ret PNone) "root"
    [("type", PStr "string");
     ("length", PDict [("minimum", PInt 2); ("maximum", PInt 0)])]
    [("minimum", PInt 2); ("maximum", PInt 0)] "maximum" no_diagnostics
    eq_refl (or_intror eq_refl) eq_refl) "abc").
Defined.

(** ** The map kind *)

Lemma dict_mem_set (d : dict) k k' v :
  dict_mem k (dict_set d k' v) = String.eqb k k' || dict_mem k d.
Proof.
  unfold dict_mem. destruct (String.eqb k k') eqn:E.
  - apply String.eqb_eq in E. subst k'. now rewrite dict_get_set_same.
  - rewrite dict_get_set_other; [reflexivity|].
    intros ->. now rewrite String.eqb_refl in E.
Qed.

Lemma mem_string_keys (d : dict) k v :
  In (k, v) d -> mem_string k (keys d) = true.
Proof.
  intros H. apply existsb_exists. exists k. split.
  - change k with (fst (k, v)). apply in_map, H.
  - apply String.eqb_refl.
Qed.

Lemma mem_string_In k (l : list string) : mem_string k l = true <-> In k l.
Proof.
  unfold mem_string. rewrite existsb_exists. split.
  - intros [x [Hx E]]. apply String.eqb_eq in E. now subst x.
  - intros H. exists k. split; [exact H | apply String.eqb_refl].
Qed.

Section MapKind.

Variable adjust : string -> PyVal -> PyVal -> Py PyVal.
Variables (path : string) (node : dict).

Lemma process_map_field_run adjusted key value c :
  process_map_field adjust path node adjusted (key, value) c
  = match dict_get node key with
    | Some item =>
        match adjust (path ++ "." ++ key) item value c with
        | (Return v, c') => (Return (dict_set adjusted key v), c')
        | (Raise e, c') => (Raise e, c')
        end
    | None => (Return adjusted, c)
    end.
Proof.
  unfold process_map_field. destruct (dict_get node key); [|reflexivity].
  unfold bind. now destruct (adjust _ _ _ c) as [[v|e] c'].
Qed.

(** The keys of the adjusted mapping: those it had, and the declared fields
    that the document has. *)
Lemma process_map_fields_keys fields : forall adjusted0 c adjusted c',
  for_accumulate fields adjusted0 (process_map_field adjust path node) c
  = (Return adjusted, c') ->
  forall k, dict_mem k adjusted
            = dict_mem k adjusted0
              || (mem_string k (keys fields) && dict_mem k node).
Proof.
  induction fields as [|[key value] fields IH]; intros a0 c adjusted c' H k.
  - injection H as <- _. simpl. now rewrite orb_false_r.
  - rewrite for_accumulate_cons, process_map_field_run in H.
    change (keys ((key, value) :: fields)) with (key :: keys fields).
    simpl mem_string.
    destruct (dict_get node key) as [item|] eqn:E.
    + destruct (adjust (path ++ "." ++ key) item value c) as [[v|e] c1];
        [|discriminate H].
      rewrite (IH _ _ _ _ H k), dict_mem_set.
      destruct (String.eqb k key) eqn:Ek; simpl; [|reflexivity].
      apply String.eqb_eq in Ek. subst k.
      assert (dict_mem key node = true) as ->
        by (unfold dict_mem; now rewrite E).
      now rewrite orb_true_r.
    + rewrite (IH _ _ _ _ H k).
      destruct (String.eqb k key) eqn:Ek; simpl; [|reflexivity].
      apply String.eqb_eq in Ek. subst k.
      assert (dict_mem key node = false) as ->
        by (unfold dict_mem; now rewrite E).
      now rewrite andb_false_r.
Qed.

(** A key that is not declared keeps the entry it had. *)
Lemma process_map_fields_other fields : forall adjusted0 c adjusted c',
  for_accumulate fields adjusted0 (process_map_field adjust path node) c
  = (Return adjusted, c') ->
  forall k, ~ In k (keys fields) -> dict_get adjusted k = dict_get adjusted0 k.
Proof.
  induction fields as [|[key value] fields IH]; intros a0 c adjusted c' H k Hk.
  - now injection H as <- _.
  - rewrite for_accumulate_cons, process_map_field_run in H. simpl in Hk.
    assert (key <> k) as Hne by tauto.
    assert (~ In k (keys fields)) as Hk' by tauto.
    destruct (dict_get node key) as [item|] eqn:E.
    + destruct (adjust (path ++ "." ++ key) item value c) as [[v|e] c1];
        [|discriminate H].
      rewrite (IH _ _ _ _ H k Hk').
      now apply dict_get_set_other.
    + apply (IH _ _ _ _ H k Hk').
Qed.

(** The entry of a declared field that the document has is the conversion of
    the document's value against the field's schema. *)
Lemma process_map_fields_value fields : forall adjusted0 c adjusted c',
  NoDup (keys fields) ->
  for_accumulate fields adjusted0 (process_map_field adjust path node) c
  = (Return adjusted, c') ->
  forall k value item,
    In (k, value) fields -> dict_get node k = Some item ->
    exists c1 c2 v,
      adjust (path ++ "." ++ k) item value c1 = (Return v, c2)
      /\ dict_get adjusted k = Some v.
Proof.
  induction fields as [|[key value0] fields IH];
    intros a0 c adjusted c' Hnodup H k value item Hin Hitem; [easy|].
  rewrite for_accumulate_cons, process_map_field_run in H.
  change (keys ((key, value0) :: fields)) with (key :: keys fields) in Hnodup.
  apply NoDup_cons_iff in Hnodup as [Hfresh Hnodup].
  destruct Hin as [[= -> ->]|Hin].
  - rewrite Hitem in H.
    destruct (adjust (path ++ "." ++ k) item value c) as [[v|e] c1] eqn:Ev;
      [|discriminate H].
    exists c, c1, v. split; [exact Ev|].
    rewrite (process_map_fields_other _ _ _ _ _ H k Hfresh).
    apply dict_get_set_same.
  - destruct (dict_get node key) as [item0|].
    + destruct (adjust (path ++ "." ++ key) item0 value0 c) as [[v|e] c1];
        [|discriminate H].
      exact (IH _ _ _ _ Hnodup H k value item Hin Hitem).
    + exact (IH _ _ _ _ Hnodup H k value item Hin Hitem).
Qed.

(** The loop returns when the conversions of the fields return. *)
Lemma process_map_fields_returns fields :
  (forall k value item c1,
     In (k, value) fields -> dict_get node k = Some item ->
     exists v c2, adjust (path ++ "." ++ k) item value c1 = (Return v, c2)) ->
  forall adjusted0 c, exists adjusted c',
    for_accumulate fields adjusted0 (process_map_field adjust path node) c
    = (Return adjusted, c').
Proof.
  induction fields as [|[key value] fields IH]; intros Hret a0 c.
  - now exists a0, c.
  - rewrite for_accumulate_cons, process_map_field_run.
    assert (forall k value item c1,
              In (k, value) fields -> dict_get node k = Some item ->
              exists v c2,
                adjust (path ++ "." ++ k) item value c1 = (Return v, c2))
      as Hret' by (intros; eapply Hret; [right|]; eassumption).
    destruct (dict_get node key) as [item|] eqn:E.
    + destruct (Hret key value item c (or_introl eq_refl) E) as [v [c2 Hv]].
      rewrite Hv. apply (IH Hret').
    + apply (IH Hret').
Qed.

(** With no declared field in the document, nothing is converted. *)
Lemma process_map_fields_absent fields :
  (forall k, In k (keys fields) -> dict_mem k node = false) ->
  forall adjusted0 c,
    for_accumulate fields adjusted0 (process_map_field adjust path node) c
    = (Return adjusted0, c).
Proof.
  induction fields as [|[key value] fields IH]; intros Habs a0 c;
    [reflexivity|].
  rewrite for_accumulate_cons, process_map_field_run.
  pose proof (Habs key (or_introl eq_refl)) as Hkey. unfold dict_mem in Hkey.
  destruct (dict_get node key); [discriminate Hkey|].
  apply IH. intros k Hk. apply Habs. now right.
Qed.

End MapKind.

(** The fields of the document that matter are the declared ones. *)
Lemma process_map_fields_declared adjust path node node' fields adjusted0 c :
  (forall k, In k (keys fields) -> dict_get node' k = dict_get node k) ->
  for_accumulate fields adjusted0 (process_map_field adjust path node') c
  = for_accumulate fields adjusted0 (process_map_field adjust path node) c.
Proof.
  intros H. apply for_accumulate_ext. intros a [key value] c' Hin.
  unfold process_map_field. rewrite H; [reflexivity|].
  change key with (fst (key, value)). apply in_map, Hin.
Qed.

Lemma dict_set_fresh (d : dict) k v :
  dict_get d k = None -> dict_set d k v = (d ++ [(k, v)])%list.
Proof.
  induction d as [|[k' v'] d IH]; simpl; [reflexivity|].
  destruct (String.eqb k k'); [discriminate|].
  intros H. now rewrite IH.
Qed.

(** The loop of [process_map_node] converts the declared fields that the
    document has, and adds their entries in that order. *)
Lemma process_map_fields_run adjust path node fields : forall adjusted0 c,
  NoDup (keys fields) ->
  (forall k, In k (keys fields) -> dict_get adjusted0 k = None) ->
  for_accumulate fields adjusted0 (process_map_field adjust path node) c
  = match convert_fields adjust path (declared_and_present fields node) c with
    | (Return entries, c') => (Return (adjusted0 ++ entries)%list, c')
    | (Raise e, c') => (Raise e, c')
    end.
Proof.
  induction fields as [|[key value] fields IH]; intros a0 c Hnodup Hfresh.
  - simpl. unfold ret. now rewrite app_nil_r.
  - change (keys ((key, value) :: fields)) with (key :: keys fields) in *.
    apply NoDup_cons_iff in Hnodup as [Hkey Hnodup].
    rewrite for_accumulate_cons, process_map_field_run.
    unfold declared_and_present. cbn [flat_map fst snd].
    fold (declared_and_present fields node).
    destruct (dict_get node key) as [item|].
    + cbn [app convert_fields]. unfold bind at 1.
      destruct (adjust (path ++ "." ++ key) item value c) as [[v|e] c1];
        [|reflexivity].
      rewrite IH; [|exact Hnodup|].
      * unfold bind, ret.
        destruct (convert_fields adjust path
                    (declared_and_present fields node) c1) as [[entries|e] c2];
          [|reflexivity].
        rewrite dict_set_fresh by (apply Hfresh; now left).
        now rewrite <- app_assoc.
      * intros k Hk. rewrite dict_get_set_other.
        -- apply Hfresh. now right.
        -- intros ->. contradiction.
    + cbn [app]. apply IH; [exact Hnodup|].
      intros k Hk. apply Hfresh. now right.
Qed.

Lemma distinct_strings_NoDup (l : list string) :
  distinct_strings l = true -> NoDup l.
Proof.
  induction l as [|s l IH]; simpl; [constructor|].
  intros H. apply andb_true_iff in H as [Hs Hl].
  constructor; [|now apply IH].
  intros Hin. apply mem_string_In in Hin. unfold mem_string in Hin.
  now rewrite Hin in Hs.
Qed.

Section MapNode.

Variable re_match : string -> string -> option bool.

(** [adjust_node] at a mapping, for a map schema: the loop over the fields. *)
Lemma adjust_node_map_run path node specs fields c :
  dict_get specs "type" = Some (PStr "map") ->
  dict_get specs "fields" = Some (PDict fields) ->
  adjust_node re_match path (PDict node) (PDict specs) c
  = match for_accumulate fields []
            (process_map_field (adjust_node re_match) path node) c with
    | (Return adjusted, c') => (Return (PDict adjusted), c')
    | (Raise e, c') => (Raise e, c')
    end.
Proof.
  intros Htype Hfields. rewrite adjust_node_equation. unfold adjust_node_body.
  rewrite !andb_false_r.
  unfold adjust_node_map_lookup, subscript. rewrite Htype.
  unfold bind at 1 2, ret at 1. cbn [hashable negb]. unfold ret at 1.
  change (adjust_node_map re_match (adjust_node re_match) "map")
    with (Some (process_map_node (adjust_node re_match))).
  cbv iota. unfold process_map_node, subscript. rewrite Hfields.
  reflexivity.
Qed.

(** A null at an optional node is converted to [None] and nothing is
    recorded. *)
Lemma adjust_node_optional_null path specs c :
  truthy (get_default specs "option" (PBool false)) = true ->
  adjust_node re_match path PNone (PDict specs) c = (Return PNone, c).
Proof.
  intros H. rewrite adjust_node_equation. unfold adjust_node_body.
  now rewrite H.
Qed.

(** C5.  For a map schema with the fields [fields] and a document mapping
    [node]: the conversion is that of the declared fields that the document
    has, one after the other, and nothing else is converted or recorded; so
    the adjusted mapping has exactly these fields, each with the conversion
    of its value, a declared field that the document does not have adds no
    entry and no error, and the call returns when these conversions do.
    When no declared field is in the document the result is the empty mapping
    and nothing is recorded; an optional field that is null in the document
    is converted to [None] without error; and the fields of the document
    that are not declared change neither the result nor the diagnostics. *)
Theorem adjust_node_map_fields path node specs fields c :
  dict_get specs "type" = Some (PStr "map") ->
  dict_get specs "fields" = Some (PDict fields) ->
  distinct_strings (keys fields) = true ->
  let convert node := adjust_node re_match path (PDict node) (PDict specs) c in
  convert node
  = (entries <- convert_fields (adjust_node re_match) path
                  (declared_and_present fields node) ;;
     ret (PDict entries)) c
  /\ (forall v c', convert node = (Return v, c') ->
       exists adjusted,
         v = PDict adjusted
         /\ (forall k, dict_mem k adjusted
                       = mem_string k (keys fields) && dict_mem k node)
         /\ (forall k value item,
               In (k, value) fields -> dict_get node k = Some item ->
               exists c1 c2 x,
                 adjust_node re_match (path ++ "." ++ k) item value c1
                 = (Return x, c2)
                 /\ dict_get adjusted k = Some x)
         /\ (forall k value,
               In (k, PDict value) fields ->
               truthy (get_default value "option" (PBool false)) = true ->
               dict_get node k = Some PNone ->
               dict_get adjusted k = Some PNone))
  /\ ((forall k value item c1,
         In (k, value) fields -> dict_get node k = Some item ->
         exists x c2,
           adjust_node re_match (path ++ "." ++ k) item value c1
           = (Return x, c2)) ->
      exists adjusted c', convert node = (Return (PDict adjusted), c'))
  /\ ((forall k, In k (keys fields) -> dict_mem k node = false) ->
      convert node = (Return (PDict []), c))
  /\ (forall k value path' c1,
        In (k, PDict value) fields ->
        truthy (get_default value "option" (PBool false)) = true ->
        adjust_node re_match path' PNone (PDict value) c1 = (Return PNone, c1))
  /\ (forall node',
        (forall k, In k (keys fields) -> dict_get node' k = dict_get node k) ->
        convert node' = convert node).
Proof.
  intros Htype Hfields Hdistinct convert.
  apply distinct_strings_NoDup in Hdistinct.
  assert (forall n, convert n
                    = match for_accumulate fields []
                              (process_map_field (adjust_node re_match) path n) c
                      with
                      | (Return adjusted, c') => (Return (PDict adjusted), c')
                      | (Raise e, c') => (Raise e, c')
                      end) as Hrun.
  { intros n. subst convert. cbv beta.
    exact (adjust_node_map_run path n specs fields c Htype Hfields). }
  clearbody convert.
  split; [|split; [|split; [|split; [|split]]]].
  - rewrite Hrun.
    pose proof (process_map_fields_run (adjust_node re_match) path node
                  fields [] c Hdistinct (fun k _ => eq_refl)) as Hloop.
    unfold dict in *. rewrite Hloop. unfold bind, ret.
    now destruct (convert_fields _ _ _ c) as [[entries|e] c'].
  - intros v c' H. rewrite Hrun in H.
    destruct (for_accumulate fields [] _ c) as [[adjusted|e] c1] eqn:Hloop;
      [|discriminate H].
    injection H as <- <-. exists adjusted.
    assert (forall k value item,
              In (k, value) fields -> dict_get node k = Some item ->
              exists c2 c3 x,
                adjust_node re_match (path ++ "." ++ k) item value c2
                = (Return x, c3)
                /\ dict_get adjusted k = Some x) as Hvalue
      by (eapply process_map_fields_value; eassumption).
    split; [reflexivity|]. split; [|split].
    + intros k. now rewrite (process_map_fields_keys _ _ _ _ _ _ _ _ Hloop k).
    + exact Hvalue.
    + intros k value Hin Hoption Hnull.
      destruct (Hvalue k (PDict value) PNone Hin Hnull) as [c2 [c3 [x [Hx Hk]]]].
      rewrite adjust_node_optional_null in Hx by exact Hoption.
      now injection Hx as <- _.
  - intros Hret. rewrite Hrun.
    destruct (process_map_fields_returns _ _ _ _ Hret [] c)
      as [adjusted [c' Hloop]].
    unfold dict in *. rewrite Hloop. now exists adjusted, c'.
  - intros Habsent. rewrite Hrun.
    pose proof (process_map_fields_absent (adjust_node re_match) path _ _
                  Habsent [] c) as Hloop.
    unfold dict in *. now rewrite Hloop.
  - intros k value path' c1 _ Hoption. now apply adjust_node_optional_null.
  - intros node' Hsame. rewrite !Hrun.
    pose proof (process_map_fields_declared (adjust_node re_match) path
                  node node' fields [] c Hsame) as Hloop.
    unfold dict in *. now rewrite Hloop.
Qed.

(** The two documents of the specification against
    [{type: map, fields: {x: {type: flag, option: true}}}]. *)
Lemma adjust_node_map_optional_examples c :
  let specs :=
    PDict [("type", PStr "map");
           ("fields", PDict [("x", PDict [("type", PStr "flag");
                                          ("option", PBool true)])])] in
  adjust_node re_match "root" (PDict []) specs c = (Return (PDict []), c)
  /\ adjust_node re_match "root" (PDict [("x", PNone)]) specs c
     = (Return (PDict [("x", PNone)]), c).
Proof.
  split; reflexivity.
Qed.

End MapNode.

(** Witness of C5: the schema declares [a] and an optional [x], the document
    has [a] and a field [y] that is not declared.  The field [x] adds no
    entry and no error, and [y] is dropped: only [a] is converted. *)
Lemma adjust_node_map_fields_witness :
  adjust_node literal_match "root"
    (PDict [("y", PInt 1); ("a", PBool true)])
    (PDict [("type", PStr "map");
            ("fields", PDict [("a", PDict [("type", PStr "flag")]);
                              ("x", PDict [("type", PStr "flag");
                                           ("option", PBool true)])])])
    no_diagnostics
  = (Return (PDict [("a", PBool true)]), no_diagnostics).
Proof.
  refine (eq_trans (proj1
    (adjust_node_map_fields literal_match "root"
       [("y", PInt 1); ("a", PBool true)]
       [("type", PStr "map");
        ("fields", PDict [("a", PDict [("type", PStr "flag")]);
                          ("x", PDict [("type", PStr "flag");
                                       ("option", PBool true)])])]
       [("a", PDict [("type", PStr "flag")]);
        ("x", PDict [("type", PStr "flag"); ("option", PBool true)])]
       no_diagnostics eq_refl eq_refl eq_refl)) _).
  reflexivity.
Defined.

(** ** The converter only appends errors *)

Lemma extends_refl c : extends c c.
Proof. exists []. now rewrite app_nil_r. Qed.

Lemma extends_trans c1 c2 c3 : extends c1 c2 -> extends c2 c3 -> extends c1 c3.
Proof.
  intros [a [Ha Wa]] [b [Hb Wb]]. exists (a ++ b)%list.
  rewrite Hb, Ha, Wb, Wa, app_assoc. now split.
Qed.

(** Nothing was added when the errors are the same at the end. *)
Lemma extends_same c c' : extends c c' -> errors c' = errors c -> c' = c.
Proof.
  intros [a [Ha Wa]] H. destruct c as [e w], c' as [e' w']. simpl in *.
  subst w'. now rewrite H.
Qed.

(** With two steps and the same errors at the end, no step added any. *)
Lemma extends_same_middle c c1 c' :
  extends c c1 -> extends c1 c' -> errors c' = errors c -> c1 = c /\ c' = c.
Proof.
  intros [a [Ha Wa]] [b [Hb Wb]] H.
  assert (a = [] /\ b = []) as [-> ->].
  { rewrite Hb, Ha, <- app_assoc in H.
    rewrite <- (app_nil_r (errors c)) in H at 2.
    apply app_inv_head in H. now apply app_eq_nil in H. }
  rewrite app_nil_r in Ha, Hb.
  destruct c as [e w], c1 as [e1 w1], c' as [e' w']. simpl in *.
  subst. now split.
Qed.

Lemma appends_ret {A} (a : A) : appends (ret a).
Proof. intros c o c' [= _ <-]. apply extends_refl. Qed.

Lemma appends_raise {A} e : appends (@raise A e).
Proof. intros c o c' [= _ <-]. apply extends_refl. Qed.

Lemma appends_errors_append e : appends (errors_append e).
Proof. intros c o c' [= _ <-]. now exists [e]. Qed.

Lemma appends_bind {A B} (m : Py A) (f : A -> Py B) :
  appends m -> (forall a, appends (f a)) -> appends (bind m f).
Proof.
  intros Hm Hf c o c' H. unfold bind in H.
  destruct (m c) as [[a|e] c1] eqn:E.
  - eapply extends_trans; [eapply Hm, E | eapply Hf, H].
  - injection H as _ <-. eapply Hm, E.
Qed.

Lemma appends_py_test test a b : appends (py_test test a b).
Proof.
  unfold py_test. destruct (py_compare a b);
    [apply appends_ret | apply appends_raise].
Qed.

Lemma appends_for_append {A} (l : list A) (f : nat -> A -> Py PyVal) :
  (forall i x, In x l -> appends (f i x)) ->
  forall i, appends (for_append i l f).
Proof.
  induction l as [|x l IH]; intros H i; simpl; [apply appends_ret|].
  apply appends_bind; [apply H; now left|]. intros y.
  apply appends_bind; [|intros; apply appends_ret].
  apply IH. intros j z Hz. apply H. now right.
Qed.

Lemma appends_for_accumulate {A V} (l : list A) (f : V -> A -> Py V) :
  (forall s x, In x l -> appends (f s x)) ->
  forall s, appends (for_accumulate l s f).
Proof.
  induction l as [|x l IH]; intros H s; simpl; [apply appends_ret|].
  apply appends_bind; [apply H; now left|]. intros s'.
  apply IH. intros s'' z Hz. apply H. now right.
Qed.

(** The steps that close most goals on [appends]. *)
Ltac appends_step :=
  first
    [ apply appends_ret
    | apply appends_raise
    | apply appends_errors_append
    | apply appends_py_test
    | apply appends_bind; [|intros ?]
    | match goal with
      | |- appends (if ?b then _ else _) => destruct b
      | |- appends (match ?x with _ => _ end) => destruct x
      | |- appends (let (_, _) := ?x in _) => destruct x
      end ].

Section DocumentAppends.

Variable re_match : string -> string -> option bool.

Lemma appends_check_bound path node bound test1 test2 m1 m2 :
  appends (check_bound path node bound (py_test test1) (py_test test2) m1 m2).
Proof. unfold check_bound. repeat appends_step. Qed.

Lemma appends_check_length what path len specs :
  appends (check_length what path len specs).
Proof. unfold check_length, py_ge, py_le. repeat appends_step. Qed.

Lemma appends_py_len v : appends (py_len v).
Proof. unfold py_len. repeat appends_step. Qed.

Lemma appends_py_index v i : appends (py_index v i).
Proof. unfold py_index. repeat appends_step. Qed.

Lemma appends_py_in x v : appends (py_in x v).
Proof. unfold py_in. repeat appends_step. Qed.

Lemma appends_subscript d k : appends (subscript d k).
Proof. unfold subscript. repeat appends_step. Qed.

Lemma appends_py_int node : appends (py_int node).
Proof. unfold py_int. repeat appends_step. Qed.

Lemma appends_process_flag_node path node specs :
  appends (process_flag_node path node specs).
Proof. unfold process_flag_node. repeat appends_step. Qed.

Lemma appends_process_integer_node path node specs :
  appends (process_integer_node path node specs).
Proof.
  unfold process_integer_node.
  destruct (negb (is_number node)); [repeat appends_step|].
  apply appends_bind; [apply appends_check_bound|]. intros ok.
  destruct (negb ok); [apply appends_ret|].
  apply appends_bind; [apply appends_check_bound|]. intros ok'.
  destruct (negb ok'); [apply appends_ret|].
  apply appends_bind; [apply appends_py_int|]. intros. apply appends_ret.
Qed.

Lemma appends_process_string_node path node specs :
  appends (process_string_node re_match path node specs).
Proof.
  unfold process_string_node.
  destruct node; try apply appends_raise.
  apply appends_bind; [apply appends_check_length|]. intros ok.
  repeat appends_step.
Qed.

Lemma appends_process_enum_node path node specs :
  appends (process_enum_node path node specs).
Proof.
  unfold process_enum_node.
  destruct node; try (repeat appends_step; fail).
  apply appends_bind; [apply appends_subscript|]. intros values.
  apply appends_bind; [apply appends_py_in|]. intros found.
  repeat appends_step.
Qed.

Section Children.

Variable adjust : string -> PyVal -> PyVal -> Py PyVal.
Hypothesis appends_adjust : forall p v s, appends (adjust p v s).

Lemma appends_process_list_node path node specs :
  appends (process_list_node adjust path node specs).
Proof.
  unfold process_list_node.
  apply appends_bind; [apply appends_subscript|]. intros value.
  destruct node; try (repeat appends_step; fail).
  apply appends_bind; [apply appends_check_length|]. intros ok.
  destruct (negb ok); [apply appends_ret|].
  apply appends_bind; [|intros; apply appends_ret].
  apply appends_for_append. intros. apply appends_adjust.
Qed.

Lemma appends_process_tuple_node path node specs :
  appends (process_tuple_node adjust path node specs).
Proof.
  unfold process_tuple_node.
  apply appends_bind; [apply appends_subscript|]. intros values.
  destruct node; try (repeat appends_step; fail).
  apply appends_bind; [apply appends_py_len|]. intros n.
  destruct (negb _); [repeat appends_step|].
  apply appends_bind; [|intros; apply appends_ret].
  apply appends_for_append. intros.
  apply appends_bind; [apply appends_py_index|]. intros.
  apply appends_adjust.
Qed.

Lemma appends_process_map_field path node adjusted field :
  appends (process_map_field adjust path node adjusted field).
Proof.
  unfold process_map_field. destruct field as [key value].
  destruct (dict_get node key); [|apply appends_ret].
  apply appends_bind; [apply appends_adjust|]. intros. apply appends_ret.
Qed.

Lemma appends_process_map_node path node specs :
  appends (process_map_node adjust path node specs).
Proof.
  unfold process_map_node.
  apply appends_bind; [apply appends_subscript|]. intros fields.
  destruct node; try (repeat appends_step; fail).
  destruct fields; try apply appends_raise.
  apply appends_bind; [|intros; apply appends_ret].
  apply appends_for_accumulate. intros. apply appends_process_map_field.
Qed.

Lemma appends_adjust_node_map type_ process path node specs :
  adjust_node_map re_match adjust type_ = Some process ->
  appends (process path node specs).
Proof.
  unfold adjust_node_map.
  repeat match goal with
         | |- context [if ?b then _ else _] => destruct b
         end;
    intros [= <-];
    first [ apply appends_process_flag_node
          | apply appends_process_integer_node
          | apply appends_ret
          | apply appends_process_string_node
          | apply appends_process_enum_node
          | apply appends_process_list_node
          | apply appends_process_tuple_node
          | apply appends_process_map_node ].
Qed.

Lemma appends_adjust_node_body path node specs :
  appends (adjust_node_body re_match adjust path node specs).
Proof.
  unfold adjust_node_body.
  destruct specs as [| | | | | | |specs]; try apply appends_raise.
  destruct (negb _ && _); [repeat appends_step|].
  destruct (truthy _ && _); [apply appends_ret|].
  intros c o c' H. unfold bind, adjust_node_map_lookup, subscript in H.
  destruct (dict_get specs "type") as [type_|];
    [|injection H as _ <-; apply extends_refl].
  unfold bind, ret in H.
  destruct (negb (hashable type_));
    [injection H as _ <-; apply extends_refl|].
  destruct type_; try (injection H as _ <-; apply extends_refl).
  destruct (adjust_node_map re_match adjust s) as [process|] eqn:E;
    [|injection H as _ <-; apply extends_refl].
  eapply appends_adjust_node_map; eassumption.
Qed.

End Children.

Lemma appends_adjust_node_fuel n : forall path node specs,
  appends (adjust_node_fuel re_match n path node specs).
Proof.
  induction n as [|n IH]; intros path node specs; simpl.
  - apply appends_raise.
  - apply appends_adjust_node_body. exact IH.
Qed.

Lemma appends_adjust_node path node specs :
  appends (adjust_node re_match path node specs).
Proof. apply appends_adjust_node_fuel. Qed.

End DocumentAppends.

(** ** Converting an adjusted value again *)

Lemma append_one_differs {A} (l : list A) (x : A) : (l ++ [x])%list <> l.
Proof.
  intros H. apply (f_equal (@List.length A)) in H.
  rewrite length_app in H. simpl in H. lia.
Qed.

(** A run that leaves by [Return] with the errors it started with went
    through both steps of a [bind] without adding any. *)
Lemma bind_no_error {A B} (m : Py A) (f : A -> Py B) c b c' :
  appends m -> (forall a, appends (f a)) ->
  bind m f c = (Return b, c') -> errors c' = errors c ->
  exists a, m c = (Return a, c) /\ f a c = (Return b, c) /\ c' = c.
Proof.
  intros Hm Hf H He. unfold bind in H.
  destruct (m c) as [[a|e] c1] eqn:E; [|discriminate H].
  destruct (extends_same_middle c c1 c') as [-> ->];
    [eapply Hm, E | eapply Hf, H | exact He |].
  now exists a.
Qed.

Lemma pure_subscript d k : pure (subscript d k).
Proof.
  unfold subscript. destruct (dict_get d k); eexists; reflexivity.
Qed.

Lemma pure_py_test test a b : pure (py_test test a b).
Proof.
  unfold py_test. destruct (py_compare a b); eexists; reflexivity.
Qed.

Lemma pure_py_len v : pure (py_len v).
Proof. destruct v; eexists; reflexivity. Qed.

Lemma pure_py_index v i : pure (py_index v i).
Proof.
  destruct v; simpl; try (eexists; reflexivity).
  - destruct (String.get i s); eexists; reflexivity.
  - destruct (nth_error l i); eexists; reflexivity.
  - destruct (nth_error l i); eexists; reflexivity.
Qed.

Lemma pure_py_in x v : pure (py_in x v).
Proof.
  destruct v; simpl; try (eexists; reflexivity).
  - destruct x; eexists; reflexivity.
  - destruct (negb (hashable x)); [eexists; reflexivity|].
    destruct x; eexists; reflexivity.
Qed.

(** A pure computation gives at any collector what it gives at one. *)
Lemma pure_run {A} (m : Py A) c o c' :
  pure m -> m c = (o, c') -> c' = c /\ forall c2, m c2 = (o, c2).
Proof.
  intros [o' H] E. rewrite H in E. injection E as <- <-. now split.
Qed.

(** A check that passes at one collector leaves it as it is and passes at
    any other; one that fails has added an error. *)
Lemma check_passes (m : Py bool) c c' :
  check m -> m c = (Return true, c') ->
  c' = c /\ forall c2, m c2 = (Return true, c2).
Proof.
  intros [H|[[e H]|[e H]]] E; rewrite H in E; try discriminate E.
  injection E as <-. now split.
Qed.

Lemma check_fails (m : Py bool) c c' :
  check m -> m c = (Return false, c') -> errors c' <> errors c.
Proof.
  intros [H|[[e H]|[e H]]] E; rewrite H in E; try discriminate E.
  injection E as <-. simpl. apply append_one_differs.
Qed.

Lemma check_of_test (m : Py bool) (e : PyExn) :
  pure m ->
  check (ok <- m ;; if negb ok then errors_append e ;; ret false else ret true).
Proof.
  intros [[[|]|x] H]; unfold check, bind.
  - left. intros c. now rewrite H.
  - right. left. exists e. intros c. now rewrite H.
  - right. right. exists x. intros c. now rewrite H.
Qed.

Lemma check_ret_true : check (ret true).
Proof. now left. Qed.

Lemma check_check_bound path node bound test1 test2 m1 m2 :
  check (check_bound path node bound (py_test test1) (py_test test2) m1 m2).
Proof.
  unfold check_bound. destruct bound as [[is_exclusive value]|];
    [|apply check_ret_true].
  destruct (truthy is_exclusive); apply check_of_test, pure_py_test.
Qed.

Lemma check_check_length what path len specs :
  check (check_length what path len specs).
Proof.
  unfold check_length.
  destruct (get specs "length") as [| |length| | | | |length];
    try (right; right; eexists; reflexivity); try apply check_ret_true.
  - destruct (negb (Z.of_nat len =? length)).
    + right. left. eexists. reflexivity.
    + apply check_ret_true.
  - pose proof (check_of_test (py_ge (PInt (Z.of_nat len)) (get length "minimum"))
                  (ValidationError path
                     ("length of " ++ what ++ " must be greater or equal to X"))
                  (pure_py_test _ _ _)) as Hmin.
    pose proof (check_of_test (py_le (PInt (Z.of_nat len)) (get length "maximum"))
                  (ValidationError path
                     ("length of " ++ what ++ " must be lower or equal to X"))
                  (pure_py_test _ _ _)) as Hmax.
    destruct (truthy (get length "minimum")), (truthy (get length "maximum")).
    + destruct Hmin as [Hmin|[[e Hmin]|[e Hmin]]].
      * destruct Hmax as [Hmax|[[e Hmax]|[e Hmax]]].
        -- left. intros c. unfold bind at 1. now rewrite Hmin.
        -- right. left. exists e. intros c. unfold bind at 1. now rewrite Hmin.
        -- right. right. exists e. intros c. unfold bind at 1. now rewrite Hmin.
      * right. left. exists e. intros c. unfold bind at 1. now rewrite Hmin.
      * right. right. exists e. intros c. unfold bind at 1. now rewrite Hmin.
    + destruct Hmin as [Hmin|[[e Hmin]|[e Hmin]]].
      * left. intros c. unfold bind at 1. now rewrite Hmin.
      * right. left. exists e. intros c. unfold bind at 1. now rewrite Hmin.
      * right. right. exists e. intros c. unfold bind at 1. now rewrite Hmin.
    + exact Hmax.
    + apply check_ret_true.
Qed.

Lemma forallb_entry (P : PyVal -> bool) (d : dict) k v :
  forallb (fun kv => P (snd kv)) d = true -> dict_get d k = Some v ->
  P v = true.
Proof.
  intros H E. destruct (dict_get_In d k v E) as [k' Hin].
  rewrite forallb_forall in H. exact (H (k', v) Hin).
Qed.

Lemma has_no_decimal_entry d k v :
  has_no_decimal (PDict d) = true -> dict_get d k = Some v ->
  has_no_decimal v = true.
Proof.
  simpl. intros H. apply andb_true_iff in H as [_ H].
  now apply forallb_entry.
Qed.

Lemma distinct_keys_entry d k v :
  distinct_keys (PDict d) = true -> dict_get d k = Some v ->
  distinct_keys v = true.
Proof.
  simpl. intros H. apply andb_true_iff in H as [_ H].
  now apply forallb_entry.
Qed.

Lemma whole_numbers_entry d k v :
  whole_numbers (PDict d) = true -> dict_get d k = Some v ->
  whole_numbers v = true.
Proof. simpl. now apply forallb_entry. Qed.

(** The schema of a position of a tuple keeps the properties of the
    schema. *)
Lemma py_index_keeps (P : PyVal -> bool) values i v c c' :
  (forall l, (values = PList l \/ values = PTuple l) ->
             forall x, In x l -> P x = true) ->
  (forall s, P (PStr s) = true) ->
  py_index values i c = (Return v, c') -> P v = true.
Proof.
  intros Hl Hs H. destruct values; simpl in H; try discriminate H.
  - destruct (String.get i s); [|discriminate H].
    injection H as <- _. apply Hs.
  - destruct (nth_error l i) eqn:E; [|discriminate H].
    injection H as <- _. eapply Hl; [now left|]. eapply nth_error_In, E.
  - destruct (nth_error l i) eqn:E; [|discriminate H].
    injection H as <- _. eapply Hl; [now right|]. eapply nth_error_In, E.
Qed.

Lemma py_index_has_no_decimal values i v c c' :
  has_no_decimal values = true ->
  py_index values i c = (Return v, c') -> has_no_decimal v = true.
Proof.
  intros H. apply py_index_keeps; [|reflexivity].
  intros l [->| ->] x Hx; simpl in H; rewrite forallb_forall in H; now apply H.
Qed.

Lemma py_index_distinct_keys values i v c c' :
  distinct_keys values = true ->
  py_index values i c = (Return v, c') -> distinct_keys v = true.
Proof.
  intros H. apply py_index_keeps; [|reflexivity].
  intros l [->| ->] x Hx; simpl in H; rewrite forallb_forall in H; now apply H.
Qed.

(** A number that [int] converts, and that is whole, compares in the same
    way as the integer it gives with any value. *)
Lemma py_compare_py_int node z b c c' :
  whole_numbers node = true ->
  is_number node = true ->
  py_int node c = (Return z, c') ->
  py_compare (PInt z) b = py_compare node b.
Proof.
  intros Hwhole Hnum H.
  destruct node as [| | |[q|negative|]| | | |]; try discriminate Hnum;
    try discriminate H.
  - now injection H as <- _.
  - injection H as <- _. simpl in Hwhole. apply Qeq_bool_iff in Hwhole.
    cbn [py_compare]. destruct (num_of b) as [n|]; [|reflexivity].
    cbn [option_map]. f_equal. rewrite !num_compare_value.
    cbn [Num_value]. destruct (Num_value n) as [p|[|]|]; try reflexivity.
    cbn [Float_compare]. now rewrite Hwhole.
Qed.

Lemma check_bound_py_int path node z bound test1 test2 m1 m2 c0 c0' c :
  whole_numbers node = true ->
  is_number node = true ->
  py_int node c0 = (Return z, c0') ->
  check_bound path (PInt z) bound (py_test test1) (py_test test2) m1 m2 c
  = check_bound path node bound (py_test test1) (py_test test2) m1 m2 c.
Proof.
  intros Hwhole Hnum Hint. unfold check_bound.
  destruct bound as [[is_exclusive value]|]; [|reflexivity].
  destruct (truthy is_exclusive); apply bind_ext; try reflexivity;
    unfold py_test; now rewrite (py_compare_py_int node z value c0 c0').
Qed.

Lemma pure_py_int node : pure (py_int node).
Proof.
  destruct node as [| | |[q|negative|]| | | |]; eexists; reflexivity.
Qed.

(** An error was recorded, so the errors are not those of the start. *)
Ltac error_recorded H He :=
  unfold bind, errors_append, ret in H; injection H as <- <-;
  simpl in He; now apply append_one_differs in He.

Section Again.

Variable re_match : string -> string -> option bool.

Lemma process_flag_node_again path node specs c A c' :
  process_flag_node path node specs c = (Return A, c') ->
  errors c' = errors c ->
  c' = c /\ json_form A <> PNone
  /\ forall c2, process_flag_node path (json_form A) specs c2 = (Return A, c2).
Proof.
  intros H He. destruct node; try (exfalso; error_recorded H He).
  injection H as <- <-. repeat split. discriminate.
Qed.

Lemma process_integer_node_again path node specs c A c' :
  whole_numbers node = true ->
  process_integer_node path node specs c = (Return A, c') ->
  errors c' = errors c ->
  c' = c /\ json_form A <> PNone
  /\ forall c2, process_integer_node path (json_form A) specs c2 = (Return A, c2).
Proof.
  intros Hwhole H He. unfold process_integer_node in H.
  destruct (is_number node) eqn:Hnum; cbn [negb] in H;
    [|exfalso; error_recorded H He].
  apply bind_no_error in H as [ok [Hmin [H ->]]]; try exact He;
    [|apply appends_check_bound
     |intros; repeat appends_step;
      first [apply appends_check_bound | apply appends_py_int]].
  destruct ok; cbn [negb] in H;
    [|now elim (check_fails _ _ _ (check_check_bound _ _ _ _ _ _ _) Hmin)].
  apply bind_no_error in H as [ok [Hmax [H _]]]; try reflexivity;
    [|apply appends_check_bound
     |intros; repeat appends_step; apply appends_py_int].
  destruct ok; cbn [negb] in H;
    [|now elim (check_fails _ _ _ (check_check_bound _ _ _ _ _ _ _) Hmax)].
  destruct (pure_py_int node) as [o Hint]. unfold bind in H.
  rewrite Hint in H. destruct o as [z|e]; [|discriminate H].
  injection H as <-. split; [reflexivity|]. split; [discriminate|].
  intros c2. cbn [json_form]. unfold process_integer_node.
  cbn [is_number negb]. unfold bind.
  unfold py_gt, py_ge, py_lt, py_le in *.
  rewrite (check_bound_py_int path node z _ _ _ _ _ c c c2 Hwhole Hnum (Hint c)).
  rewrite (proj2 (check_passes _ _ _ (check_check_bound _ _ _ _ _ _ _) Hmin) c2).
  cbn [negb].
  rewrite (check_bound_py_int path node z _ _ _ _ _ c c c2 Hwhole Hnum (Hint c)).
  rewrite (proj2 (check_passes _ _ _ (check_check_bound _ _ _ _ _ _ _) Hmax) c2).
  reflexivity.
Qed.

Lemma process_string_node_again path node specs c A c' :
  process_string_node re_match path node specs c = (Return A, c') ->
  errors c' = errors c ->
  c' = c /\ json_form A <> PNone
  /\ forall c2, process_string_node re_match path (json_form A) specs c2
                = (Return A, c2).
Proof.
  intros H He. destruct node; try discriminate H.
  unfold process_string_node in H.
  apply bind_no_error in H as [ok [Hlen [H ->]]]; try exact He;
    [|apply appends_check_length|intros; repeat appends_step].
  destruct ok; cbn [negb] in H;
    [|now elim (check_fails _ _ _ (check_check_length _ _ _ _) Hlen)].
  assert (A = PStr s) as ->.
  { destruct (get specs "pattern"); try discriminate H;
      [now injection H as <-|].
    destruct (re_match s0 s) as [[|]|]; try discriminate H.
    now injection H as <-. }
  split; [reflexivity|]. split; [discriminate|].
  intros c2. cbn [json_form]. unfold process_string_node, bind.
  rewrite (proj2 (check_passes _ _ _ (check_check_length _ _ _ _) Hlen) c2).
  cbn [negb].
  destruct (get specs "pattern"); try discriminate H; [reflexivity|].
  now destruct (re_match s0 s) as [[|]|].
Qed.

Lemma process_enum_node_again path node specs c A c' :
  process_enum_node path node specs c = (Return A, c') ->
  errors c' = errors c ->
  c' = c /\ json_form A <> PNone
  /\ forall c2, process_enum_node path (json_form A) specs c2 = (Return A, c2).
Proof.
  intros H He. destruct node; try (exfalso; error_recorded H He).
  unfold process_enum_node in H.
  apply bind_no_error in H as [values [Hvalues [H ->]]]; try exact He;
    [|apply appends_subscript
     |intros; apply appends_bind; [apply appends_py_in|];
      intros; repeat appends_step].
  apply bind_no_error in H as [found [Hfound [H _]]]; try reflexivity;
    [|apply appends_py_in|intros; repeat appends_step].
  destruct found; cbn [negb] in H.
  2:{ unfold bind, errors_append, ret in H. injection H as _ Hc.
      apply (f_equal errors) in Hc. simpl in Hc.
      now apply append_one_differs in Hc. }
  injection H as <-. split; [reflexivity|]. split; [discriminate|].
  intros c2. cbn [json_form]. unfold process_enum_node, bind.
  rewrite (proj2 (pure_run _ _ _ _ (pure_subscript _ _) Hvalues) c2).
  rewrite (proj2 (pure_run _ _ _ _ (pure_py_in _ _) Hfound) c2).
  reflexivity.
Qed.

End Again.

(** The loop of the list and tuple kinds, on the adjusted elements. *)
Lemma for_append_again (f : nat -> PyVal -> Py PyVal) (l : list PyVal) :
  (forall i x, In x l -> appends (f i x)) ->
  (forall i x c y c',
     In x l -> f i x c = (Return y, c') -> errors c' = errors c ->
     forall c2, f i (json_form y) c2 = (Return y, c2)) ->
  forall i c ys c',
    for_append i l f c = (Return ys, c') -> errors c' = errors c ->
    c' = c /\ List.length ys = List.length l
    /\ forall c2, for_append i (map json_form ys) f c2 = (Return ys, c2).
Proof.
  induction l as [|x l IH]; intros Happ Hf i c ys c' H He.
  - injection H as <- <-. now repeat split.
  - simpl in H.
    apply bind_no_error in H as [y [Hy [H ->]]]; try exact He.
    + apply bind_no_error in H as [ys' [Hys [H _]]]; try reflexivity.
      * injection H as <-.
        destruct (IH (fun j z Hz => Happ j z (or_intror Hz))
                     (fun j z c0 y0 c0' Hz => Hf j z c0 y0 c0' (or_intror Hz))
                     (S i) c ys' c Hys eq_refl) as [_ [Hlen Hagain]].
        split; [reflexivity|]. split; [simpl; now rewrite Hlen|].
        intros c2. simpl. unfold bind.
        rewrite (Hf i x c y c (or_introl eq_refl) Hy eq_refl c2).
        now rewrite Hagain.
      * apply appends_for_append. intros j z Hz. apply Happ. now right.
      * intros. apply appends_ret.
    + apply Happ. now left.
    + intros. apply appends_bind; [|intros; apply appends_ret].
      apply appends_for_append. intros j z Hz. apply Happ. now right.
Qed.

Lemma subscript_Return d k c v c' :
  subscript d k c = (Return v, c') -> dict_get d k = Some v.
Proof.
  unfold subscript. destruct (dict_get d k); [|discriminate].
  now intros [= -> _].
Qed.

(** A pure step that is followed by a [Return] gave a value, at any
    collector. *)
Lemma bind_pure {A B} (m : Py A) (f : A -> Py B) c b c' :
  pure m -> bind m f c = (Return b, c') ->
  exists a, (forall c2, m c2 = (Return a, c2)) /\ f a c = (Return b, c').
Proof.
  intros [o Hm] H. unfold bind in H. rewrite Hm in H.
  destruct o as [a|e]; [|discriminate H]. now exists a.
Qed.

(** A check that is followed by a [Return] without a new error passed. *)
Lemma bind_check {B} (m : Py bool) (f : bool -> Py B) c b c' :
  check m -> appends (f false) ->
  bind m f c = (Return b, c') -> errors c' = errors c ->
  (forall c2, m c2 = (Return true, c2)) /\ f true c = (Return b, c').
Proof.
  intros [Hm|[[e Hm]|[e Hm]]] Hf H He; unfold bind in H; rewrite Hm in H.
  - now split.
  - exfalso. destruct (Hf _ _ _ H) as [added [Ha _]]. simpl in Ha.
    rewrite He, <- app_assoc in Ha.
    rewrite <- (app_nil_r (errors c)) in Ha at 1.
    apply app_inv_head in Ha. discriminate Ha.
  - discriminate H.
Qed.

Section AgainChildren.

Variable adjust : string -> PyVal -> PyVal -> Py PyVal.
Hypothesis appends_adjust : forall p v s, appends (adjust p v s).

Lemma process_list_node_again path l specs c A c' :
  (forall x, In x l -> converts_again adjust x) ->
  distinct_keys (PDict specs) = true ->
  has_no_decimal (PDict specs) = true ->
  whole_numbers (PList l) = true ->
  process_list_node adjust path (PList l) specs c = (Return A, c') ->
  errors c' = errors c ->
  c' = c /\ json_form A <> PNone
  /\ forall c2, process_list_node adjust path (json_form A) specs c2
                = (Return A, c2).
Proof.
  intros Hch Hkeys Hdec Hwhole H He. unfold process_list_node in H.
  apply bind_pure in H as [value [Hvalue H]]; [|apply pure_subscript].
  apply bind_check in H as [Hlen H]; try exact He;
    [|apply check_check_length|apply appends_ret].
  cbn [negb] in H.
  pose proof (subscript_Return _ _ _ _ _ (Hvalue c)) as Hget.
  assert (forall i x, In x l ->
            appends ((fun index item =>
              adjust (path ++ ".[" ++ str_of_nat index ++ "]") item value) i x))
    as Happ by (intros; apply appends_adjust).
  apply bind_no_error in H as [ys [Hys [H ->]]]; try exact He;
    [|now apply appends_for_append|intros; apply appends_ret].
  injection H as <-.
  simpl in Hwhole. rewrite forallb_forall in Hwhole.
  destruct (for_append_again _ l Happ) with (i := 0%nat) (c := c) (ys := ys)
    (c' := c) as [_ [Hlength Hagain]]; try assumption; try reflexivity.
  { intros i x c0 y c0' Hx Hrun He0.
    eapply (Hch x Hx); try eassumption.
    - eapply distinct_keys_entry; eassumption.
    - eapply has_no_decimal_entry; eassumption.
    - now apply Hwhole. }
  split; [reflexivity|]. split; [discriminate|].
  intros c2. cbn [json_form]. unfold process_list_node, bind.
  rewrite Hvalue, length_map, Hlength, Hlen. cbn [negb].
  now rewrite Hagain.
Qed.

Lemma process_tuple_node_again path l specs c A c' :
  (forall x, In x l -> converts_again adjust x) ->
  distinct_keys (PDict specs) = true ->
  has_no_decimal (PDict specs) = true ->
  whole_numbers (PList l) = true ->
  process_tuple_node adjust path (PList l) specs c = (Return A, c') ->
  errors c' = errors c ->
  c' = c /\ json_form A <> PNone
  /\ forall c2, process_tuple_node adjust path (json_form A) specs c2
                = (Return A, c2).
Proof.
  intros Hch Hkeys Hdec Hwhole H He. unfold process_tuple_node in H.
  apply bind_pure in H as [values [Hvalues H]]; [|apply pure_subscript].
  apply bind_pure in H as [n [Hn H]]; [|apply pure_py_len].
  pose proof (subscript_Return _ _ _ _ _ (Hvalues c)) as Hget.
  destruct (Nat.eqb (List.length l) n) eqn:Hlen; cbn [negb] in H;
    [|exfalso; error_recorded H He].
  set (f := fun index item =>
         value <- py_index values index ;;
         adjust (path ++ ".(" ++ str_of_nat index ++ ")") item value) in *.
  assert (forall i x, In x l -> appends (f i x)) as Happ.
  { intros. apply appends_bind; [apply appends_py_index|].
    intros. apply appends_adjust. }
  apply bind_no_error in H as [ys [Hys [H ->]]]; try exact He;
    [|now apply appends_for_append|intros; apply appends_ret].
  injection H as <-.
  simpl in Hwhole. rewrite forallb_forall in Hwhole.
  destruct (for_append_again f l Happ) with (i := 0%nat) (c := c) (ys := ys)
    (c' := c) as [_ [Hlength Hagain]]; try assumption; try reflexivity.
  { intros i x c0 y c0' Hx Hrun He0 c2. unfold f in Hrun |- *.
    apply bind_pure in Hrun as [value [Hidx Hrun]]; [|apply pure_py_index].
    unfold bind. rewrite Hidx.
    eapply (Hch x Hx); try eassumption.
    - eapply py_index_distinct_keys; [|apply (Hidx c0)].
      eapply distinct_keys_entry; eassumption.
    - eapply py_index_has_no_decimal; [|apply (Hidx c0)].
      eapply has_no_decimal_entry; eassumption.
    - now apply Hwhole. }
  split; [reflexivity|]. split; [discriminate|].
  intros c2. cbn [json_form]. unfold process_tuple_node, bind.
  rewrite Hvalues, Hn, length_map, Hlength, Hlen. cbn [negb].
  fold f. now rewrite Hagain.
Qed.

Lemma json_form_dict_get (d : dict) k :
  dict_get (map (fun kv => (fst kv, json_form (snd kv))) d) k
  = option_map json_form (dict_get d k).
Proof.
  induction d as [|[k' v] d IH]; simpl; [reflexivity|].
  now destruct (String.eqb k k').
Qed.

Lemma process_map_fields_again path d d2 fields : forall a0 c adj c',
  NoDup (keys fields) ->
  (forall k, In k (keys fields) -> dict_get a0 k = None) ->
  (forall k value item,
     In (k, value) fields -> dict_get d k = Some item ->
     forall c0 y c0',
       adjust (path ++ "." ++ k) item value c0 = (Return y, c0') ->
       errors c0' = errors c0 ->
       forall c2, adjust (path ++ "." ++ k) (json_form y) value c2
                  = (Return y, c2)) ->
  (forall k, In k (keys fields) ->
             dict_get d2 k = option_map json_form (dict_get adj k)) ->
  for_accumulate fields a0 (process_map_field adjust path d) c
  = (Return adj, c') ->
  errors c' = errors c ->
  c' = c
  /\ forall c2, for_accumulate fields a0 (process_map_field adjust path d2) c2
                = (Return adj, c2).
Proof.
  induction fields as [|[key value] fields IH];
    intros a0 c adj c' Hnodup Hfresh Hf Hd2 H He.
  - injection H as <- <-. now split.
  - change (keys ((key, value) :: fields)) with (key :: keys fields) in *.
    apply NoDup_cons_iff in Hnodup as [Hkey Hnodup].
    rewrite for_accumulate_cons, process_map_field_run in H.
    assert (forall a, appends (for_accumulate fields a
                                 (process_map_field adjust path d))) as Hloop
      by (intros; apply appends_for_accumulate; intros;
          now apply appends_process_map_field).
    destruct (dict_get d key) as [item|] eqn:Eitem.
    + destruct (adjust (path ++ "." ++ key) item value c) as [[v|e] c1] eqn:Ev;
        [|discriminate H].
      destruct (extends_same_middle c c1 c') as [-> ->];
        [eapply appends_adjust, Ev | eapply Hloop, H | exact He |].
      assert (dict_get adj key = Some v) as Hadj.
      { rewrite (process_map_fields_other _ _ _ _ _ _ _ _ H key Hkey).
        apply dict_get_set_same. }
      destruct (IH (dict_set a0 key v) c adj c Hnodup) as [_ Hagain];
        try assumption; try reflexivity.
      * intros k Hk. rewrite dict_get_set_other.
        -- apply Hfresh. now right.
        -- intros ->. contradiction.
      * intros k value0 item0 Hin. apply Hf. now right.
      * intros k Hk. apply Hd2. now right.
      * split; [reflexivity|]. intros c2.
        rewrite for_accumulate_cons, process_map_field_run.
        rewrite (Hd2 key (or_introl eq_refl)), Hadj. cbn [option_map].
        rewrite (Hf key value item (or_introl eq_refl) Eitem c v c Ev eq_refl c2).
        apply Hagain.
    + assert (dict_get adj key = None) as Hadj.
      { rewrite (process_map_fields_other _ _ _ _ _ _ _ _ H key Hkey).
        apply Hfresh. now left. }
      destruct (IH a0 c adj c' Hnodup) as [-> Hagain];
        try assumption.
      * intros k Hk. apply Hfresh. now right.
      * intros k value0 item0 Hin. apply Hf. now right.
      * intros k Hk. apply Hd2. now right.
      * split; [reflexivity|]. intros c2.
        rewrite for_accumulate_cons, process_map_field_run.
        rewrite (Hd2 key (or_introl eq_refl)), Hadj. cbn [option_map].
        apply Hagain.
Qed.

Lemma process_map_node_again path d specs c A c' :
  (forall k item, dict_get d k = Some item -> converts_again adjust item) ->
  distinct_keys (PDict specs) = true ->
  has_no_decimal (PDict specs) = true ->
  whole_numbers (PDict d) = true ->
  process_map_node adjust path (PDict d) specs c = (Return A, c') ->
  errors c' = errors c ->
  c' = c /\ json_form A <> PNone
  /\ forall c2, process_map_node adjust path (json_form A) specs c2
                = (Return A, c2).
Proof.
  intros Hch Hkeys Hdec Hwhole H He. unfold process_map_node in H.
  apply bind_pure in H as [fields [Hfields H]]; [|apply pure_subscript].
  pose proof (subscript_Return _ _ _ _ _ (Hfields c)) as Hget.
  destruct fields as [| | | | | | |fields]; try discriminate H.
  pose proof (distinct_keys_entry _ _ _ Hkeys Hget) as Hkf.
  pose proof (has_no_decimal_entry _ _ _ Hdec Hget) as Hdf.
  simpl in Hkf, Hdf. apply andb_true_iff in Hkf as [Hnodup Hkf].
  apply andb_true_iff in Hdf as [_ Hdf].
  rewrite forallb_forall in Hkf, Hdf.
  apply distinct_strings_NoDup in Hnodup.
  apply bind_no_error in H as [adj [Hloop [H ->]]]; try exact He;
    [|apply appends_for_accumulate; intros;
      now apply appends_process_map_field
     |intros; apply appends_ret].
  injection H as <-.
  destruct (process_map_fields_again path d
              (map (fun kv => (fst kv, json_form (snd kv))) adj)
              fields [] c adj c Hnodup) as [_ Hagain];
    try assumption; try reflexivity.
  { intros k value item Hin Hitem c0 y c0' Hrun He0.
    eapply (Hch k item Hitem); try eassumption.
    - apply (Hkf (k, value) Hin).
    - apply (Hdf (k, value) Hin).
    - eapply whole_numbers_entry; eassumption. }
  { intros k _. apply json_form_dict_get. }
  split; [reflexivity|]. split; [discriminate|].
  intros c2. cbn [json_form]. unfold process_map_node, bind.
  rewrite Hfields. unfold dict in *. now rewrite Hagain.
Qed.

End AgainChildren.

Section AgainDispatch.

Variable re_match : string -> string -> option bool.
Variable adjust : string -> PyVal -> PyVal -> Py PyVal.
Hypothesis appends_adjust : forall p v s, appends (adjust p v s).

(** The kind's function is called when the node is not null. *)
Lemma adjust_node_body_dispatch path node d type_ process c :
  node <> PNone ->
  dict_get d "type" = Some (PStr type_) ->
  adjust_node_map re_match adjust type_ = Some process ->
  adjust_node_body re_match adjust path node (PDict d) c
  = process path node d c.
Proof.
  intros Hnode Htype Hprocess. unfold adjust_node_body.
  assert (match node with PNone => true | _ => false end = false) as ->
    by (destruct node; congruence).
  rewrite !andb_false_r.
  unfold adjust_node_map_lookup, subscript, bind. rewrite Htype.
  unfold ret. cbn [hashable negb]. now rewrite Hprocess.
Qed.

(** The two ways [adjust_node] returns without recording an error. *)
Lemma adjust_node_body_Return path node specs c A c' :
  adjust_node_body re_match adjust path node specs c = (Return A, c') ->
  errors c' = errors c ->
  exists d, specs = PDict d
    /\ ((node = PNone
         /\ truthy (get_default d "option" (PBool false)) = true
         /\ A = PNone /\ c' = c)
        \/ (node <> PNone
            /\ exists type_ process,
                 dict_get d "type" = Some (PStr type_)
                 /\ adjust_node_map re_match adjust type_ = Some process
                 /\ process path node d c = (Return A, c'))).
Proof.
  intros H He. destruct specs as [| | | | | | |d]; try discriminate H.
  exists d. split; [reflexivity|]. unfold adjust_node_body in H.
  destruct (truthy (get_default d "option" (PBool false))) eqn:Hopt;
    cbn [negb andb] in H;
    (destruct node;
     [ first [ left; injection H as <- <-; now repeat split
             | exfalso; error_recorded H He ]
     | .. ]);
    (right; split; [discriminate|]);
    unfold adjust_node_map_lookup, subscript, bind in H;
    (destruct (dict_get d "type") as [type_|]; [|discriminate H]);
    unfold ret, raise in H;
    (destruct (negb (hashable type_)); [discriminate H|]);
    (destruct type_ as [| | | |type_| | |]; try discriminate H);
    (destruct (adjust_node_map re_match adjust type_) as [process|] eqn:E;
     [|discriminate H]);
    exists type_, process; now repeat split.
Qed.

End AgainDispatch.

Section AgainKinds.

Variable re_match : string -> string -> option bool.
Variable adjust : string -> PyVal -> PyVal -> Py PyVal.
Hypothesis appends_adjust : forall p v s, appends (adjust p v s).

(** A container function on a node of the wrong type records an error. *)
Ltac wrong_node H He :=
  exfalso;
  apply bind_pure in H as [? [_ H]]; [|apply pure_subscript];
  error_recorded H He.

Lemma adjust_node_map_again path node d type_ process c A c' :
  (forall x, (depth x < depth node)%nat -> converts_again adjust x) ->
  distinct_keys (PDict d) = true ->
  has_no_decimal (PDict d) = true ->
  whole_numbers node = true ->
  dict_get d "type" = Some (PStr type_) ->
  adjust_node_map re_match adjust type_ = Some process ->
  process path node d c = (Return A, c') ->
  errors c' = errors c ->
  c' = c /\ json_form A <> PNone
  /\ forall c2, process path (json_form A) d c2 = (Return A, c2).
Proof.
  intros Hch Hkeys Hdec Hwhole Htype Hprocess H He.
  unfold adjust_node_map in Hprocess.
  destruct (String.eqb type_ "flag");
    [injection Hprocess as <-;
     exact (process_flag_node_again path node d c A c' H He)|].
  destruct (String.eqb type_ "integer");
    [injection Hprocess as <-;
     exact (process_integer_node_again path node d c A c' Hwhole H He)|].
  destruct (String.eqb type_ "decimal") eqn:Edecimal.
  { exfalso. simpl in Hdec. unfold get in Hdec.
    rewrite Htype, Edecimal in Hdec. discriminate Hdec. }
  destruct (String.eqb type_ "string");
    [injection Hprocess as <-;
     exact (process_string_node_again re_match path node d c A c' H He)|].
  destruct (String.eqb type_ "enum");
    [injection Hprocess as <-;
     exact (process_enum_node_again path node d c A c' H He)|].
  destruct (String.eqb type_ "list").
  { injection Hprocess as <-.
    destruct node; unfold process_list_node in H; try wrong_node H He.
    fold (process_list_node adjust path (PList l) d) in H.
    apply (process_list_node_again adjust appends_adjust path l d c A c');
      try assumption.
    intros x Hx. apply Hch, depth_item, Hx. }
  destruct (String.eqb type_ "tuple").
  { injection Hprocess as <-.
    destruct node; unfold process_tuple_node in H; try wrong_node H He.
    fold (process_tuple_node adjust path (PList l) d) in H.
    apply (process_tuple_node_again adjust appends_adjust path l d c A c');
      try assumption.
    intros x Hx. apply Hch, depth_item, Hx. }
  destruct (String.eqb type_ "map"); [|discriminate Hprocess].
  injection Hprocess as <-.
  destruct node; unfold process_map_node in H; try wrong_node H He.
  fold (process_map_node adjust path (PDict d0) d) in H.
  apply (process_map_node_again adjust appends_adjust path d0 d c A c');
    try assumption.
  intros k item Hitem. eapply Hch, depth_dict_get, Hitem.
Qed.

End AgainKinds.

Section AgainTheorem.

Variable re_match : string -> string -> option bool.

Lemma adjust_node_again_below n : forall node,
  (depth node < n)%nat -> converts_again (adjust_node re_match) node.
Proof.
  induction n as [|n IH]; intros node Hdepth; [lia|].
  intros path specs c A c' Hkeys Hdec Hwhole H He.
  rewrite adjust_node_equation in H.
  destruct (adjust_node_body_Return _ _ _ _ _ _ _ _ H He)
    as [d [-> [[-> [Hopt [-> ->]]]|[Hnode [type_ [process [Htype [Hp Hrun]]]]]]]].
  - split; [reflexivity|]. intros c2. cbn [json_form].
    now apply adjust_node_optional_null.
  - destruct (adjust_node_map_again re_match (adjust_node re_match)
                (appends_adjust_node re_match) path node d type_ process
                c A c') as [-> [HA Hagain]]; try assumption.
    + intros x Hx. apply IH. lia.
    + split; [reflexivity|]. intros c2.
      rewrite adjust_node_equation.
      rewrite (adjust_node_body_dispatch re_match (adjust_node re_match)
                 path (json_form A) d type_ process c2 HA Htype Hp).
      apply Hagain.
Qed.

(** Converting again.  When a document whose floats are whole numbers is
    converted against a schema with no decimal block, and no error is
    recorded, then converting the adjusted value again (in its JSON form,
    where tuples are arrays) returns the same adjusted value and records
    nothing. *)
Theorem adjust_node_converts_again path node specs c A c' :
  distinct_keys specs = true ->
  has_no_decimal specs = true ->
  whole_numbers node = true ->
  adjust_node re_match path node specs c = (Return A, c') ->
  errors c' = errors c ->
  c' = c
  /\ forall c2,
       adjust_node re_match path (json_form A) specs c2 = (Return A, c2).
Proof.
  intros Hkeys Hdec Hwhole H He.
  exact (adjust_node_again_below (S (depth node)) node (Nat.lt_succ_diag_r _)
           path specs c A c' Hkeys Hdec Hwhole H He).
Qed.

End AgainTheorem.

(** The three restrictions of [adjust_node_converts_again] are needed: a
    tuple that is not put back in its JSON form, a decimal node and a float
    with a fraction each make the second conversion record an error. *)
Lemma adjust_node_again_restrictions :
  (let specs := PDict [("type", PStr "tuple");
                       ("values", PList [PDict [("type", PStr "flag")]])] in
   adjust_node literal_match "root" (PList [PBool true]) specs no_diagnostics
   = (Return (PTuple [PBool true]), no_diagnostics)
   /\ adjust_node literal_match "root" (PTuple [PBool true]) specs
        no_diagnostics
      = (Return PNone,
         mkCollector [ValidationError "root" "was expecting a JSON array"] []))
  /\ (let specs := PDict [("type", PStr "decimal")] in
      adjust_node literal_match "root" (PInt 1) specs no_diagnostics
      = (Return PNone, no_diagnostics)
      /\ adjust_node literal_match "root" PNone specs no_diagnostics
         = (Return PNone,
            mkCollector [ValueError "root" "value cant be null"] []))
  /\ (let specs :=
        PDict [("type", PStr "integer");
               ("minimum", PDict [("value", PInt 5);
                                  ("exclusive", PBool true)])] in
      adjust_node literal_match "root" (PFloat (11 # 2)) specs no_diagnostics
      = (Return (PInt 5), no_diagnostics)
      /\ adjust_node literal_match "root" (PInt 5) specs no_diagnostics
         = (Return PNone,
            mkCollector
              [ValidationError "root" "value must be strictly greater than X"]
              [])).
Proof.
  repeat split; reflexivity.
Qed.

(** Witness of [adjust_node_converts_again]: a tuple of a flag and a whole
    float, converted and converted again. *)
Lemma adjust_node_converts_again_witness :
  adjust_node literal_match "root"
    (json_form (PTuple [PBool true; PInt 6]))
    (PDict [("type", PStr "tuple");
            ("values", PList [PDict [("type", PStr "flag")];
                              PDict [("type", PStr "integer")]])])
    no_diagnostics
  = (Return (PTuple [PBool true; PInt 6]), no_diagnostics).
Proof.
  refine (proj2 (adjust_node_converts_again literal_match "root"
    (PList [PBool true; PFloat (6 # 1)])
    (PDict [("type", PStr "tuple");
            ("values", PList [PDict [("type", PStr "flag")];
                              PDict [("type", PStr "integer")]])])
    no_diagnostics (PTuple [PBool true; PInt 6]) no_diagnostics
    eq_refl eq_refl eq_refl eq_refl eq_refl) no_diagnostics).
Defined.

(** ** The two modes of the entry points *)

(** Without the [errors] argument, [validate_specs] walks the schema as the
    lazy call does; it raises the first error when the lazy call returns
    with errors, returns when the lazy call returns with none, and raises
    what the lazy call raises. *)
Theorem validate_specs_raises_first_error set_pop specs :
  match validate_specs set_pop specs (Some []) None with
  | (Return _, c) =>
      validate_specs set_pop specs None None
      = match errors c with
        | [] => (Return tt, c)
        | e :: _ => (Raise e, c)
        end
  | (Raise e, c) => validate_specs set_pop specs None None = (Raise e, c)
  end.
Proof.
  unfold validate_specs. cbn [none_or_empty negb list_argument].
  rewrite raise_first_error_lazy.
  destruct (validate_root_block set_pop specs _) as [[[]|e] c]; cbn.
  - now destruct (errors c).
  - reflexivity.
Qed.

(** The same for [document_to_object], with the adjusted value returned
    when there is no error. *)
Theorem document_to_object_raises_first_error re_match json_loads
    document specs :
  match document_to_object re_match json_loads document specs (Some []) None
  with
  | (Return adjusted, c) =>
      document_to_object re_match json_loads document specs None None
      = match errors c with
        | [] => (Return adjusted, c)
        | e :: _ => (Raise e, c)
        end
  | (Raise e, c) =>
      document_to_object re_match json_loads document specs None None
      = (Raise e, c)
  end.
Proof.
  unfold document_to_object. cbn [none_or_empty negb list_argument].
  destruct (json_loads document) as [object|]; [|reflexivity].
  rewrite raise_first_error_lazy.
  destruct (adjust_node re_match "root" object specs _) as [[a|e] c]; cbn.
  - now destruct (errors c).
  - reflexivity.
Qed.

(** A list given for [errors] or [warnings] that is not empty is refused
    before the schema or the document is looked at, and is left as it is. *)
Theorem entry_points_refuse_filled_lists set_pop re_match json_loads
    document specs errors warnings :
  none_or_empty errors = false \/ none_or_empty warnings = false ->
  validate_specs set_pop specs errors warnings
  = (Raise AssertionError,
     mkCollector (list_argument errors) (list_argument warnings))
  /\ document_to_object re_match json_loads document specs errors warnings
     = (Raise AssertionError,
        mkCollector (list_argument errors) (list_argument warnings)).
Proof.
  unfold validate_specs, document_to_object.
  intros [H|H]; rewrite H; cbn [negb]; [now split|].
  now destruct (negb (none_or_empty errors)).
Qed.

(** The conversion of a node adds errors at the end of the list it was given
    and never touches the warnings, whether it returns or raises. *)
Theorem adjust_node_only_appends_errors re_match path node specs c o c' :
  adjust_node re_match path node specs c = (o, c') ->
  warnings c' = warnings c
  /\ exists added, errors c' = (errors c ++ added)%list.
Proof.
  intros H.
  destruct (appends_adjust_node re_match _ _ _ _ _ _ H) as [added [He Hw]].
  split; [exact Hw | now exists added].
Qed.

(** Witness of [entry_points_refuse_filled_lists]. *)
Lemma entry_points_refuse_filled_lists_witness :
  validate_specs first_key (PDict [("type", PStr "flag")])
    (Some [TypeError]) None
  = (Raise AssertionError, mkCollector [TypeError] [])
  /\ document_to_object literal_match tiny_json_loads "true"
       (PDict [("type", PStr "flag")]) (Some [TypeError]) None
     = (Raise AssertionError, mkCollector [TypeError] []).
Proof.
  apply (entry_points_refuse_filled_lists first_key literal_match
           tiny_json_loads "true" (PDict [("type", PStr "flag")])
           (Some [TypeError]) None).
  left. reflexivity.
Defined.

(** Witness of [adjust_node_only_appends_errors]: a list with a null and a
    number where flags are expected, converted with one warning and one
    error already in the lists. *)
Lemma adjust_node_only_appends_errors_witness :
  warnings (mkCollector
              [TypeError; ValueError "root.[0]" "value cant be null";
               ValidationError "root.[1]" "was expecting a JSON boolean"]
              [ValidationWarning "root" "kept"])
  = warnings (mkCollector [TypeError] [ValidationWarning "root" "kept"])
  /\ exists added,
       errors (mkCollector
                 [TypeError; ValueError "root.[0]" "value cant be null";
                  ValidationError "root.[1]" "was expecting a JSON boolean"]
                 [ValidationWarning "root" "kept"])
       = (errors (mkCollector [TypeError] [ValidationWarning "root" "kept"])
          ++ added)%list.
Proof.
  apply (adjust_node_only_appends_errors literal_match "root"
           (PList [PNone; PInt 3])
           (PDict [("type", PStr "list");
                   ("value", PDict [("type", PStr "flag")])])
           (mkCollector [TypeError] [ValidationWarning "root" "kept"])
           (Return (PList [PNone; PNone]))).
  reflexivity.
Defined.
